(** * WebRService: execution and result formatting

    A shallow embedding of the [WebRService] class of the playground
    (the service module: [executeCode], [formatOutput], [formatArray],
    [formatError], [truncateOutput], [destroy], [getVariable]) and the
    properties of its execution-and-formatting pipeline.

    JavaScript strings are sequences of UTF-16 code units, values are a
    small tagged union, and the service object is a record threaded
    through a state-and-exception monad. *)

From Stdlib Require Import List NArith ZArith QArith Qround Bool Lia.
From Stdlib Require Import Ascii String DecimalString.
Import ListNotations.

Close Scope Q_scope.
Local Open Scope list_scope.
Set Warnings "-register-all".

(* ===================================================================== *)
(** ** JavaScript strings *)
(* ===================================================================== *)

Module JsString.

(** A JavaScript string is a finite sequence of 16-bit code units;
    [.length] counts code units. *)
Definition jsstring := list N.

Definition eqb (a b : jsstring) : bool :=
  if list_eq_dec N.eq_dec a b then true else false.

(** Source literals are written in this file as UTF-8 text.  [utf16]
    turns the bytes of such a literal into the code units the JavaScript
    engine holds for it (one unit per BMP character, a surrogate pair
    above). *)
Fixpoint utf16 (bytes : list N) : jsstring :=
  match bytes with
  | [] => []
  | b0 :: rest0 =>
    if b0 <? 128 then b0 :: utf16 rest0
    else if b0 <? 224 then
      match rest0 with
      | b1 :: rest1 =>
        (N.shiftl (N.land b0 31) 6 + N.land b1 63) :: utf16 rest1
      | [] => [65533]
      end
    else if b0 <? 240 then
      match rest0 with
      | b1 :: b2 :: rest2 =>
        (N.shiftl (N.land b0 15) 12 + N.shiftl (N.land b1 63) 6
         + N.land b2 63) :: utf16 rest2
      | _ => [65533]
      end
    else
      match rest0 with
      | b1 :: b2 :: b3 :: rest3 =>
        let cp := N.shiftl (N.land b0 7) 18 + N.shiftl (N.land b1 63) 12
                  + N.shiftl (N.land b2 63) 6 + N.land b3 63 in
        let v := cp - 65536 in
        (55296 + N.shiftr v 10) :: (56320 + N.land v 1023) :: utf16 rest3
      | _ => [65533]
      end
  end%N.

Definition js (s : string) : jsstring :=
  utf16 (List.map N_of_ascii (list_ascii_of_string s)).

(** Truthiness of a string: only the empty string is falsy. *)
Definition truthy (s : jsstring) : bool :=
  match s with [] => false | _ :: _ => true end.

(** [String.prototype.substring(start, end)] on integer arguments:
    both are clamped to [0 .. length] and swapped when out of order. *)
Definition substring (s : jsstring) (start finish : Z) : jsstring :=
  let len := Z.of_nat (List.length s) in
  let a := Z.min (Z.max start 0) len in
  let b := Z.min (Z.max finish 0) len in
  let lo := Z.min a b in
  let hi := Z.max a b in
  firstn (Z.to_nat (hi - lo)) (skipn (Z.to_nat lo) s).

(** [Array.prototype.join] on already converted elements. *)
Fixpoint join (sep : jsstring) (parts : list jsstring) : jsstring :=
  match parts with
  | [] => []
  | [p] => p
  | p :: more => p ++ sep ++ join sep more
  end.

(** WhiteSpace and LineTerminator code units, the set [trim] strips. *)
Definition is_line_terminator (c : N) : bool :=
  ((c =? 10) || (c =? 13) || (c =? 8232) || (c =? 8233))%N.

Definition is_white_space (c : N) : bool :=
  ((c =? 9) || (c =? 11) || (c =? 12) || (c =? 32) || (c =? 160)
   || (c =? 5760) || ((8192 <=? c) && (c <=? 8202)) || (c =? 8239)
   || (c =? 8287) || (c =? 12288) || (c =? 65279))%N.

Definition is_trimmed (c : N) : bool :=
  is_white_space c || is_line_terminator c.

Fixpoint trimStart (s : jsstring) : jsstring :=
  match s with
  | [] => []
  | c :: s' => if is_trimmed c then trimStart s' else s
  end.

Definition trimEnd (s : jsstring) : jsstring := rev (trimStart (rev s)).

Definition trim (s : jsstring) : jsstring := trimEnd (trimStart s).

(** [s] has an occurrence of [t]. *)
Definition contains (s t : jsstring) : Prop :=
  exists a b, s = a ++ t ++ b.

End JsString.
Import JsString.

Arguments js s%_string.

(* ===================================================================== *)
(** ** JavaScript values *)
(* ===================================================================== *)

(** The values that flow through the formatting code.  Numbers are
    restricted to integers that print in plain decimal notation; objects
    are plain data objects, their properties kept in insertion order. *)
Inductive jsval : Type :=
| VUndefined
| VNull
| VBool (b : bool)
| VNum (z : Z)
| VStr (s : jsstring)
| VArr (elems : list jsval)
| VObj (props : list (jsstring * jsval)).

Module JsValue.

Definition numberToString (z : Z) : jsstring :=
  List.map N_of_ascii
    (list_ascii_of_string (NilZero.string_of_int (Z.to_int z))).

(** ToBoolean. *)
Definition truthy (v : jsval) : bool :=
  match v with
  | VUndefined | VNull => false
  | VBool b => b
  | VNum z => negb (z =? 0)%Z
  | VStr s => JsString.truthy s
  | VArr _ | VObj _ => true
  end.

(** ToString.  An array prints its elements separated by commas, with
    [undefined] and [null] elements printed as nothing. *)
Fixpoint ToString (v : jsval) : jsstring :=
  match v with
  | VUndefined => js "undefined"
  | VNull => js "null"
  | VBool true => js "true"
  | VBool false => js "false"
  | VNum z => numberToString z
  | VStr s => s
  | VArr elems =>
    join (js ",")
      (List.map (fun x => match x with
                          | VUndefined | VNull => []
                          | _ => ToString x
                          end) elems)
  | VObj _ => js "[object Object]"
  end.

(** The conversion [Array.prototype.join] applies to each element. *)
Definition elemToString (x : jsval) : jsstring :=
  match x with
  | VUndefined | VNull => []
  | _ => ToString x
  end.

(** [arr.join(sep)]. *)
Definition array_join (sep : jsstring) (arr : list jsval) : jsstring :=
  join sep (List.map elemToString arr).

Fixpoint lookup (key : jsstring) (props : list (jsstring * jsval)) : jsval :=
  match props with
  | [] => VUndefined
  | (k, x) :: more => if JsString.eqb k key then x else lookup key more
  end.

(** Property read [v.key] for a name that is neither an index nor
    [length]: only plain objects have such properties. *)
Definition get (v : jsval) (key : jsstring) : jsval :=
  match v with
  | VObj props => lookup key props
  | _ => VUndefined
  end.

(** [v === 'literal']. *)
Definition strict_eq_string (v : jsval) (lit : jsstring) : bool :=
  match v with
  | VStr s => JsString.eqb s lit
  | _ => false
  end.

Definition is_number (v : jsval) : bool :=
  match v with VNum _ => true | _ => false end.

Definition is_string (v : jsval) : bool :=
  match v with VStr _ => true | _ => false end.

End JsValue.
Import JsValue.

(* --------------------------------------------------------------------- *)
(** *** JSON.stringify *)
(* --------------------------------------------------------------------- *)

Module JSON.

Definition hex_digit (d : N) : N :=
  (if d <? 10 then 48 + d else 87 + d)%N.

(** The six-unit escape of a code unit, with lower-case hex digits. *)
Definition unicode_escape (c : N) : jsstring :=
  [92; 117;
   hex_digit (N.land (N.shiftr c 12) 15);
   hex_digit (N.land (N.shiftr c 8) 15);
   hex_digit (N.land (N.shiftr c 4) 15);
   hex_digit (N.land c 15)]%N.

Definition is_high_surrogate (c : N) : bool := ((55296 <=? c) && (c <=? 56319))%N.
Definition is_low_surrogate (c : N) : bool := ((56320 <=? c) && (c <=? 57343))%N.

Fixpoint quote_body (s : jsstring) : jsstring :=
  match s with
  | [] => []
  | c :: s' =>
    if (c =? 8)%N then 92%N :: 98%N :: quote_body s'
    else if (c =? 9)%N then 92%N :: 116%N :: quote_body s'
    else if (c =? 10)%N then 92%N :: 110%N :: quote_body s'
    else if (c =? 12)%N then 92%N :: 102%N :: quote_body s'
    else if (c =? 13)%N then 92%N :: 114%N :: quote_body s'
    else if (c =? 34)%N then 92%N :: 34%N :: quote_body s'
    else if (c =? 92)%N then 92%N :: 92%N :: quote_body s'
    else if (c <? 32)%N then unicode_escape c ++ quote_body s'
    else if is_high_surrogate c then
      match s' with
      | d :: s'' =>
        if is_low_surrogate d then c :: d :: quote_body s''
        else unicode_escape c ++ quote_body s'
      | [] => unicode_escape c
      end
    else if is_low_surrogate c then unicode_escape c ++ quote_body s'
    else c :: quote_body s'
  end.

(** QuoteJSONString. *)
Definition quote (s : jsstring) : jsstring :=
  34%N :: quote_body s ++ [34%N].

(** SerializeJSONProperty with a gap string: [None] stands for the
    [undefined] result, which drops an object property and prints as
    [null] inside an array. *)
Fixpoint serialize (gap indent : jsstring) (v : jsval) : option jsstring :=
  match v with
  | VUndefined => None
  | VNull => Some (js "null")
  | VBool true => Some (js "true")
  | VBool false => Some (js "false")
  | VNum z => Some (numberToString z)
  | VStr s => Some (quote s)
  | VArr elems =>
    let stepback := indent in
    let indent := indent ++ gap in
    let partial :=
      List.map (fun x => match serialize gap indent x with
                         | Some t => t
                         | None => js "null"
                         end) elems in
    Some (match partial with
          | [] => js "[]"
          | _ :: _ =>
            if JsString.truthy gap then
              js "[" ++ [10%N] ++ indent
                 ++ join (js "," ++ [10%N] ++ indent) partial
                 ++ [10%N] ++ stepback ++ js "]"
            else js "[" ++ join (js ",") partial ++ js "]"
          end)
  | VObj props =>
    let stepback := indent in
    let indent := indent ++ gap in
    let partial :=
      List.flat_map
        (fun kv => match kv with
                   | (k, x) =>
                     match serialize gap indent x with
                     | Some t =>
                       [quote k ++ js ":"
                          ++ (if JsString.truthy gap then js " " else [])
                          ++ t]
                     | None => []
                     end
                   end) props in
    Some (match partial with
          | [] => js "{}"
          | _ :: _ =>
            if JsString.truthy gap then
              js "{" ++ [10%N] ++ indent
                 ++ join (js "," ++ [10%N] ++ indent) partial
                 ++ [10%N] ++ stepback ++ js "}"
            else js "{" ++ join (js ",") partial ++ js "}"
          end)
  end.

(** [JSON.stringify(v, null, 2)]. *)
Definition stringify2 (v : jsval) : option jsstring :=
  serialize (js "  ") [] v.

End JSON.

(* ===================================================================== *)
(** ** Regular expressions of the error table *)
(* ===================================================================== *)

(** [new RegExp(source, 'i')] for the sources this program uses: literal
    characters, [.] and a greedy [*] after a single-character atom.
    Matching is the backtracking search of the language: leftmost start,
    longest repetition first. *)
Module RegExp.

Inductive atom : Type :=
| Char (c : N)
| Dot.

Inductive term : Type :=
| One (a : atom)
| Star (a : atom).

Definition regex := list term.

Fixpoint parse (source : jsstring) : regex :=
  match source with
  | [] => []
  | c :: rest =>
    let a := if (c =? 46)%N then Dot else Char c in
    match rest with
    | d :: rest' =>
      if (d =? 42)%N then Star a :: parse rest' else One a :: parse rest
    | [] => [One a]
    end
  end.

(** Canonicalize of the ignore-case flag (no unicode flag): a code unit
    is compared through its upper-case form, and a unit outside ASCII
    never canonicalizes into ASCII.  Against the ASCII pattern characters
    of this program that is: ASCII letters fold to upper case, every other
    unit stands for itself. *)
Definition canonicalize (c : N) : N :=
  (if (97 <=? c) && (c <=? 122) then c - 32 else c)%N.

Definition atom_matches (a : atom) (x : N) : bool :=
  match a with
  | Char c => (canonicalize x =? canonicalize c)%N
  | Dot => negb (is_line_terminator x)
  end.

(** Match [re] at the start of [s]; the result is the number of code
    units consumed by the first successful alternative. *)
Fixpoint match_here (re : regex) (s : jsstring) : option nat :=
  match re with
  | [] => Some 0%nat
  | One a :: re' =>
    match s with
    | x :: s' =>
      if atom_matches a x then option_map S (match_here re' s') else None
    | [] => None
    end
  | Star a :: re' =>
    (fix star (s : jsstring) : option nat :=
       match s with
       | x :: s' =>
         if atom_matches a x then
           match star s' with
           | Some n => Some (S n)
           | None => match_here re' s
           end
         else match_here re' s
       | [] => match_here re' []
       end) s
  end.

(** [regex.exec(s)] without the global flag: index and length of the
    leftmost match. *)
Fixpoint exec (re : regex) (s : jsstring) : option (nat * nat) :=
  match match_here re s with
  | Some n => Some (0%nat, n)
  | None =>
    match s with
    | [] => None
    | _ :: s' =>
      match exec re s' with
      | Some (i, n) => Some (S i, n)
      | None => None
      end
    end
  end.

(** [regex.test(s)]. *)
Definition test (re : regex) (s : jsstring) : bool :=
  match exec re s with Some _ => true | None => false end.

(** [s.replace(regex, replacement)] for a replacement text without [$]:
    the leftmost match is replaced, everything else is kept. *)
Definition replace (s : jsstring) (re : regex) (replacement : jsstring)
  : jsstring :=
  match exec re s with
  | Some (i, n) => firstn i s ++ replacement ++ skipn (i + n) s
  | None => s
  end.

End RegExp.

(* ===================================================================== *)
(** ** Configuration, errors and results *)
(* ===================================================================== *)

(** [ConfigOptions]: the maximum output length is a count of code units,
    the plot sizes are pixel counts. *)
Record ConfigOptions : Type := {
  maxOutputLength : N;
  plotWidth : N;
  plotHeight : N
}.

Definition default_config : ConfigOptions :=
  {| maxOutputLength := 10000; plotWidth := 800; plotHeight := 600 |}.

(** An [Error] object as far as the service looks at it: its [message]
    property, [None] when the property is missing. *)
Record JsError : Type := { message : option jsstring }.

Definition new_Error (msg : jsstring) : JsError := {| message := Some msg |}.

(** What a [throw] or a rejected promise carries: [undefined], [null],
    or a value whose properties can be read.  A thrown primitive reads
    like an object without [message]. *)
Inductive thrown : Type :=
| Thrown_undefined
| Thrown_null
| Thrown_object (e : JsError).

Coercion Thrown_object : JsError >-> thrown.

(** Image handles produced by the graphics capture. *)
Definition ImageBitmap := N.

(** The object [captureR] resolves to. *)
Module Raw.
Record result : Type := {
  output : option (list jsval);
  images : option (list ImageBitmap)
}.
End Raw.

(** [ExecutionResult]: a property the returned object literal does not
    carry is [None]. *)
Record ExecutionResult : Type := {
  success : bool;
  output : option jsstring;
  error : option jsstring;
  images : option (list ImageBitmap);
  executionTime : option Z
}.

(* ===================================================================== *)
(** ** Formatting *)
(* ===================================================================== *)

Definition LF : jsstring := [10%N].

(** [formatArray(arr)]. *)
Definition formatArray (arr : list jsval) : jsstring :=
  if (List.length arr =? 0)%nat then js "[]"
  else if forallb is_number arr then
    js "[" ++ array_join (js ", ") arr ++ js "]"
  else if forallb is_string arr then array_join LF arr
  else array_join LF (List.map (fun item => VStr (ToString item)) arr).

(** The callback [formatOutput] maps over the captured items.  The value
    it returns is converted to text by the [join] that follows.
    [JSON.stringify] cannot throw on the values of this model (no cycles,
    no [toJSON]), so its [catch] branch is not represented. *)
Definition formatItem (item : jsval) : jsval :=
  match item with
  | VStr _ => item
  | VArr _ | VObj _ =>
    if strict_eq_string (get item (js "type")) (js "stdout")
       && JsValue.truthy (get item (js "data"))
    then get item (js "data")
    else if strict_eq_string (get item (js "type")) (js "stderr")
            && JsValue.truthy (get item (js "data"))
    then VStr (js "エラー: " ++ ToString (get item (js "data")))
    else if strict_eq_string (get item (js "type")) (js "warning")
            && JsValue.truthy (get item (js "data"))
    then VStr (js "警告: " ++ ToString (get item (js "data")))
    else if strict_eq_string (get item (js "type")) (js "message")
            && JsValue.truthy (get item (js "data"))
    then VStr (js "メッセージ: " ++ ToString (get item (js "data")))
    else
      match item with
      | VArr arr => VStr (formatArray arr)
      | _ =>
        match JSON.stringify2 item with
        | Some text => VStr text
        | None => VUndefined
        end
      end
  | _ => VStr (ToString item)
  end.

(** [formatOutput(output)]; [None] is a missing [output] property. *)
Definition formatOutput (output : option (list jsval)) : jsstring :=
  match output with
  | None => []
  | Some items =>
    if (List.length items =? 0)%nat then []
    else array_join LF (List.map formatItem items)
  end.

(** The table of [formatError], in the order [Object.entries] lists it. *)
Definition errorTranslations : list (jsstring * jsstring) :=
  [ (js "object .* not found", js "オブジェクトが見つかりません");
    (js "unexpected", js "予期しない");
    (js "Error in", js "エラー:");
    (js "could not find function", js "関数が見つかりません");
    (js "argument is of length zero", js "引数の長さがゼロです");
    (js "missing value", js "欠損値");
    (js "invalid", js "無効な");
    (js "incorrect number of dimensions", js "次元数が正しくありません") ].

(** One turn of the translation loop. *)
Definition translate_step (message : jsstring) (entry : jsstring * jsstring)
  : jsstring :=
  let (pattern, translation) := entry in
  let regex := RegExp.parse pattern in
  if RegExp.test regex message
  then RegExp.replace message regex translation
  else message.

Definition translate_loop (table : list (jsstring * jsstring))
  (message : jsstring) : jsstring :=
  fold_left translate_step table message.

(** [formatError(error)]. *)
Definition formatError (error : JsError) : jsstring :=
  match message error with
  | Some ((_ :: _) as msg) => translate_loop errorTranslations msg
  | _ => js "コードの実行中にエラーが発生しました"
  end.

Definition omission_suffix : jsstring :=
  LF ++ LF ++ js "... (出力が長すぎるため省略されました)".

(** [truncateOutput(output)]. *)
Definition truncateOutput (config : ConfigOptions) (output : jsstring)
  : jsstring :=
  if (N.of_nat (List.length output) <=? maxOutputLength config)%N
  then output
  else
    let truncated := substring output 0 (Z.of_N (maxOutputLength config)) in
    truncated ++ omission_suffix.

(* ===================================================================== *)
(** ** The service object and its surroundings *)
(* ===================================================================== *)

(** How a call into the engine (or a method of the service) ends. *)
Inductive completion (A : Type) : Type :=
| Normal (a : A)
| Throw (v : thrown).
Arguments Normal {A} a.
Arguments Throw {A} v.

(** The options object [executeCode] hands to [captureR]. *)
Record CaptureOptions : Type := {
  withAutoprint : bool;
  captureStreams : bool;
  captureConditions : bool;
  captureGraphics : N * N
}.

(** One recorded call of [shelter.captureR]. *)
Definition Call : Type := jsstring * option CaptureOptions.

(** The external collaborators: the clock behind [performance.now()],
    the WebR engine and [JSON.parse].  A clock reading is a number, given
    as the rational it denotes.  The engine keeps its R session
    between calls, so what [captureR] does may depend on the calls made
    before.  [null_read_error] is the TypeError of reading [captureR] off
    a null shelter, [message_read_error v] the TypeError of reading
    [message] off the null or undefined value [v]. *)
Record Engine : Type := {
  performance_clock : nat -> Q;
  webR_init : completion unit;
  webR_Shelter : completion unit;
  captureR : list Call -> jsstring -> option CaptureOptions
             -> completion Raw.result;
  null_read_error : JsError;
  message_read_error : thrown -> JsError;
  JSON_parse : jsstring -> option jsval
}.

Inductive WebR : Type := WebR_new.
Inductive Shelter : Type := Shelter_new.
Record AbortController : Type := { aborted : bool }.

(** The fields of the [WebRService] object, with the two pieces of the
    outside world its methods touch: the calls [captureR] has received so
    far and the number of clock readings taken. *)
Record State : Type := {
  webR : option WebR;
  shelter : option Shelter;
  ready : bool;
  config : ConfigOptions;
  currentExecution : option AbortController;
  calls : list Call;
  clock_reads : nat
}.

(** The constructor argument: each option may be left out. *)
Record ConfigOverrides : Type := {
  given_maxOutputLength : option N;
  given_plotWidth : option N;
  given_plotHeight : option N
}.

Definition no_overrides : ConfigOverrides :=
  {| given_maxOutputLength := None; given_plotWidth := None;
     given_plotHeight := None |}.

Definition or_default {A} (given : option A) (default : A) : A :=
  match given with Some a => a | None => default end.

(** Truthiness of a property that holds a string when present. *)
Definition option_truthy (v : option jsstring) : bool :=
  match v with Some s => JsString.truthy s | None => false end.

(** [new WebRService(config)]. *)
Definition constructor (given : ConfigOverrides) : State :=
  {| webR := None;
     shelter := None;
     ready := false;
     config :=
       {| maxOutputLength := or_default (given_maxOutputLength given) 10000%N;
          plotWidth := or_default (given_plotWidth given) 800%N;
          plotHeight := or_default (given_plotHeight given) 600%N |};
     currentExecution := None;
     calls := [];
     clock_reads := 0 |}.

(** [Math.round]: nearest integer, halves towards plus infinity. *)
Definition Math_round (x : Q) : Z := Qfloor (x + (1 # 2))%Q.

(** Numbers are IEEE 754 binary64 values, held as the rationals they
    denote.  [round] takes a rational to the nearest such value, ties to
    the even significand, with gradual underflow; overflow to infinity is
    not represented (clock readings are far from it). *)
Module Double.

(** The integer nearest to [a / b], ties to even, for [0 <= a], [0 < b]. *)
Definition round_half_even (a b : Z) : Z :=
  let q := (a / b)%Z in
  let r := (a mod b)%Z in
  if (2 * r <? b)%Z then q
  else if (b <? 2 * r)%Z then (q + 1)%Z
  else if Z.even q then q else (q + 1)%Z.

(** The exponent [k] with [2^k <= n / d < 2^(k+1)], for [0 < n]. *)
Definition binade (n : Z) (d : positive) : Z :=
  let k := (Z.log2 n - Z.log2 (Zpos d))%Z in
  let reaches :=
    if (0 <=? k)%Z then (2 ^ k * Zpos d <=? n)%Z
    else (Zpos d <=? n * 2 ^ (- k))%Z in
  if reaches then k else (k - 1)%Z.

(** The binary64 value nearest to [n / d], for [0 < n]: a significand of
    53 bits, or the fixed exponent of the subnormal range. *)
Definition round_positive (n : Z) (d : positive) : Q :=
  let e := Z.max (binade n d - 52) (-1074) in
  if (0 <=? e)%Z
  then inject_Z (round_half_even n (Zpos d * 2 ^ e) * 2 ^ e)
  else Qmake (round_half_even (n * 2 ^ (- e)) (Zpos d)) (Z.to_pos (2 ^ (- e))).

Definition round (q : Q) : Q :=
  match Qnum q with
  | Z0 => 0%Q
  | Zpos n => round_positive (Zpos n) (Qden q)
  | Zneg n => Qopp (round_positive (Zpos n) (Qden q))
  end.

(** The subtraction [a - b] of two numbers. *)
Definition minus (a b : Q) : Q := round (Qminus a b).

End Double.

(** Methods run in a monad that threads the state and lets a
    computation end by throwing; the state changes made before a throw
    stay. *)
Module M.

Definition t (A : Type) : Type := State -> completion A * State.

Definition ret {A} (a : A) : t A := fun st => (Normal a, st).

Definition bind {A B} (c : t A) (k : A -> t B) : t B :=
  fun st =>
    match c st with
    | (Normal a, st') => k a st'
    | (Throw e, st') => (Throw e, st')
    end.

Definition throw {A} (v : thrown) : t A := fun st => (Throw v, st).

Definition gets {A} (field : State -> A) : t A := fun st => (Normal (field st), st).

Definition modify (f : State -> State) : t unit := fun st => (Normal tt, f st).

(** [try { body } catch (error) { handler }]. *)
Definition try_catch {A} (body : t A) (handler : thrown -> t A) : t A :=
  fun st =>
    match body st with
    | (Normal a, st') => (Normal a, st')
    | (Throw e, st') => handler e st'
    end.

(** [try { body } finally { final }]. *)
Definition try_finally {A} (body : t A) (final : t unit) : t A :=
  fun st =>
    match body st with
    | (c, st') =>
      match final st' with
      | (Normal _, st'') => (c, st'')
      | (Throw e, st'') => (Throw e, st'')
      end
    end.

End M.

Declare Scope js_scope.
Delimit Scope js_scope with js.
Notation "x <- c ;; k" := (M.bind c (fun x => k))
  (at level 61, c at next level, right associativity) : js_scope.
Notation "c ;; k" := (M.bind c (fun _ => k))
  (at level 61, right associativity) : js_scope.

Definition set_webR (v : option WebR) : M.t unit :=
  M.modify (fun st =>
    {| webR := v; shelter := shelter st; ready := ready st;
       config := config st; currentExecution := currentExecution st;
       calls := calls st; clock_reads := clock_reads st |}).

Definition set_shelter (v : option Shelter) : M.t unit :=
  M.modify (fun st =>
    {| webR := webR st; shelter := v; ready := ready st;
       config := config st; currentExecution := currentExecution st;
       calls := calls st; clock_reads := clock_reads st |}).

Definition set_ready (v : bool) : M.t unit :=
  M.modify (fun st =>
    {| webR := webR st; shelter := shelter st; ready := v;
       config := config st; currentExecution := currentExecution st;
       calls := calls st; clock_reads := clock_reads st |}).

Definition set_currentExecution (v : option AbortController) : M.t unit :=
  M.modify (fun st =>
    {| webR := webR st; shelter := shelter st; ready := ready st;
       config := config st; currentExecution := v;
       calls := calls st; clock_reads := clock_reads st |}).

Definition record_call (c : Call) (st : State) : State :=
  {| webR := webR st; shelter := shelter st; ready := ready st;
     config := config st; currentExecution := currentExecution st;
     calls := calls st ++ [c]; clock_reads := clock_reads st |}.

Definition tick (st : State) : State :=
  {| webR := webR st; shelter := shelter st; ready := ready st;
     config := config st; currentExecution := currentExecution st;
     calls := calls st; clock_reads := S (clock_reads st) |}.

(** The source text handed to the engine by [setupEnvironment]. *)
Definition setup_code : jsstring :=
  LF ++ js "                options(width = 80)"
  ++ LF ++ js "                options(digits = 7)"
  ++ LF ++ js "                # 日本語対応の設定"
  ++ LF ++ js "                Sys.setlocale(" ++ [34%N] ++ js "LC_ALL"
  ++ [34%N] ++ js ", " ++ [34%N] ++ js "C" ++ [34%N] ++ js ")"
  ++ LF ++ js "            ".

Section Service.

Variable E : Engine.

Local Open Scope js_scope.

(** [performance.now()]. *)
Definition performance_now : M.t Q :=
  fun st => (Normal (performance_clock E (clock_reads st)), tick st).

(** [await this.shelter.captureR(code, options)]: reading the method off
    a null shelter throws before the engine is reached. *)
Definition shelter_captureR (code : jsstring) (options : option CaptureOptions)
  : M.t Raw.result :=
  fun st =>
    match shelter st with
    | None => (Throw (null_read_error E), st)
    | Some _ => (captureR E (calls st) code options, record_call (code, options) st)
    end.

(** [setupEnvironment()]: a failure is only logged. *)
Definition setupEnvironment : M.t unit :=
  M.try_catch
    (_ <- shelter_captureR setup_code None ;; M.ret tt)
    (fun error => M.ret tt).

(** The text a template literal makes of [error.message]. *)
Definition message_text (error : JsError) : jsstring :=
  match message error with
  | Some m => m
  | None => js "undefined"
  end.

(** Reading [error.message] off a caught value: [null] and [undefined]
    have no properties, the read throws a TypeError. *)
Definition read_message (error : thrown) : M.t JsError :=
  match error with
  | Thrown_object e => M.ret e
  | _ => M.throw (message_read_error E error)
  end.

(** [initialize()]. *)
Definition initialize : M.t unit :=
  M.try_catch
    (set_webR (Some WebR_new) ;;
     (fun st => (webR_init E, st)) ;;
     (fun st => (webR_Shelter E, st)) ;;
     set_shelter (Some Shelter_new) ;;
     setupEnvironment ;;
     set_ready true)
    (fun error =>
       set_ready false ;;
       e <- read_message error ;;
       M.throw (new_Error (js "WebR初期化に失敗しました: " ++ message_text e))).

Definition not_initialized : JsError :=
  new_Error (js "WebRが初期化されていません").

(** [executeCode(code)]. *)
Definition executeCode (code : jsstring) : M.t ExecutionResult :=
  is_ready <- M.gets ready ;;
  if negb is_ready then M.throw not_initialized
  else if negb (JsString.truthy code) || negb (JsString.truthy (trim code))
  then
    M.ret {| success := false;
             output := None;
             error := Some (js "コードが入力されていません");
             images := None;
             executionTime := None |}
  else
    startTime <- performance_now ;;
    M.try_finally
      (M.try_catch
         (set_currentExecution (Some {| aborted := false |}) ;;
          cfg <- M.gets config ;;
          result <- shelter_captureR code
                      (Some {| withAutoprint := true;
                               captureStreams := true;
                               captureConditions := true;
                               captureGraphics :=
                                 (plotWidth cfg, plotHeight cfg) |}) ;;
          now <- performance_now ;;
          let executionTime := Double.minus now startTime in
          let output := formatOutput (Raw.output result) in
          M.ret {| success := true;
                   output := Some (truncateOutput cfg output);
                   error := None;
                   images := Some (or_default (Raw.images result) []);
                   executionTime := Some (Math_round executionTime) |})
         (fun error =>
            now <- performance_now ;;
            let executionTime := Double.minus now startTime in
            e <- read_message error ;;
            let errorMessage := formatError e in
            M.ret {| success := false;
                     output := None;
                     error := Some errorMessage;
                     images := None;
                     executionTime := Some (Math_round executionTime) |}))
      (set_currentExecution None).

(** [cancelExecution()]. *)
Definition cancelExecution : M.t unit :=
  current <- M.gets currentExecution ;;
  match current with
  | Some _ => set_currentExecution None
  | None => M.ret tt
  end.

(** [isReady()]. *)
Definition isReady : M.t bool := M.gets ready.

(** [destroy()]: the shelter's own [destroy] returns a promise whose
    rejection is only logged. *)
Definition destroy : M.t unit :=
  M.try_catch
    (cancelExecution ;;
     sh <- M.gets shelter ;;
     match sh with
     | Some _ => set_shelter None
     | None => M.ret tt
     end ;;
     set_webR None ;;
     set_ready false)
    (fun error => M.ret tt).

(** [getVariable(variableName)]. *)
Definition getVariable (variableName : jsstring) : M.t jsval :=
  is_ready <- M.gets ready ;;
  if negb is_ready then M.throw not_initialized
  else
    M.try_catch
      (let code := js "jsonlite::toJSON(" ++ variableName
                   ++ js ", auto_unbox = TRUE)" in
       result <- executeCode code ;;
       if success result && option_truthy (output result) then
         let out := or_default (output result) [] in
         match JSON_parse E out with
         | Some value => M.ret value
         | None => M.ret (VStr out)
         end
       else M.ret VNull)
      (fun error => M.ret VNull).

End Service.

(* ===================================================================== *)
(** ** Vocabulary of the properties *)
(* ===================================================================== *)

(** The test [!code || !code.trim()] of [executeCode]. *)
Definition is_blank (code : jsstring) : bool :=
  negb (JsString.truthy code) || negb (JsString.truthy (trim code)).

(** Every code unit of the text is white space or a line terminator
    (the empty text included). *)
Definition whitespace_only (code : jsstring) : bool :=
  forallb is_trimmed code.

(** The options [executeCode] passes in a given state. *)
Definition execute_options (st : State) : option CaptureOptions :=
  Some {| withAutoprint := true;
          captureStreams := true;
          captureConditions := true;
          captureGraphics := (plotWidth (config st), plotHeight (config st)) |}.

(** The state an execution that reached the [try] block leaves behind:
    two clock readings taken, no cancellation handle kept, and the call
    recorded when the engine was reached. *)
Definition after_execution (reached : bool) (code : jsstring) (st : State)
  : State :=
  {| webR := webR st; shelter := shelter st; ready := ready st;
     config := config st; currentExecution := None;
     calls := if reached then calls st ++ [(code, execute_options st)]
              else calls st;
     clock_reads := S (S (clock_reads st)) |}.

(** The duration an execution started in [st] reports: the difference
    of the next two clock readings as numbers, rounded to an integer. *)
Definition measured (E : Engine) (st : State) : Z :=
  Math_round (Double.minus (performance_clock E (S (clock_reads st)))
                           (performance_clock E (clock_reads st))).

Definition no_code_result : ExecutionResult :=
  {| success := false;
     output := None;
     error := Some (js "コードが入力されていません");
     images := None;
     executionTime := None |}.

Definition failure_result (E : Engine) (e : JsError) (st : State)
  : ExecutionResult :=
  {| success := false;
     output := None;
     error := Some (formatError e);
     images := None;
     executionTime := Some (measured E st) |}.

Definition success_result (E : Engine) (raw : Raw.result) (st : State)
  : ExecutionResult :=
  {| success := true;
     output := Some (truncateOutput (config st) (formatOutput (Raw.output raw)));
     error := None;
     images := Some (or_default (Raw.images raw) []);
     executionTime := Some (measured E st) |}.

(** The source text [getVariable] builds for a variable name. *)
Definition variable_code (variableName : jsstring) : jsstring :=
  js "jsonlite::toJSON(" ++ variableName ++ js ", auto_unbox = TRUE)".

(** [translate]: [formatError] applied to an error with that message. *)
Definition translate (rawMessage : jsstring) : jsstring :=
  formatError (new_Error rawMessage).

Definition pattern_matches (message : jsstring) (entry : jsstring * jsstring)
  : bool :=
  RegExp.test (RegExp.parse (fst entry)) message.

(** The first table entry whose pattern matches the message. *)
Definition first_matching (message : jsstring) : option (jsstring * jsstring) :=
  find (pattern_matches message) errorTranslations.

(** The translation property read as: only the first matching pattern
    is substituted, at its match, the rest of the message is kept, and
    the result holds the localized phrase and is free of the pattern. *)
Definition first_pattern_only (message : jsstring) : Prop :=
  forall pattern translation i n,
    first_matching message = Some (pattern, translation) ->
    RegExp.exec (RegExp.parse pattern) message = Some (i, n) ->
    translate message
    = firstn i message ++ translation ++ skipn (i + n) message
    /\ contains (translate message) translation
    /\ RegExp.test (RegExp.parse pattern) (translate message) = false.

(** The four labelled kinds of captured stream item. *)
Inductive stream : Type := Stdout | Stderr | Warning | Message.

Definition stream_type (k : stream) : jsstring :=
  match k with
  | Stdout => js "stdout"
  | Stderr => js "stderr"
  | Warning => js "warning"
  | Message => js "message"
  end.

(** The object the engine emits for a line of text on a stream. *)
Definition captured (item : stream * jsstring) : jsval :=
  VObj [(js "type", VStr (stream_type (fst item)));
        (js "data", VStr (snd item))].

(** The line the labelling rules give such an item. *)
Definition labelled (item : stream * jsstring) : jsstring :=
  match fst item with
  | Stdout => snd item
  | Stderr => js "エラー: " ++ snd item
  | Warning => js "警告: " ++ snd item
  | Message => js "メッセージ: " ++ snd item
  end.

(** The labelling rules applied to a whole capture, in order. *)
Definition labelled_lines (items : list (stream * jsstring)) : jsstring :=
  join LF (List.map labelled items).

(* --------------------------------------------------------------------- *)
(** *** A concrete engine and session *)
(* --------------------------------------------------------------------- *)

(** An engine with a fixed behaviour per source text: [stop()] fails
    with an R error, any other code prints one line and draws one plot. *)
Definition demo_engine : Engine :=
  {| performance_clock := fun n => (inject_Z (Z.of_nat n) * (7 # 2))%Q;
     webR_init := Normal tt;
     webR_Shelter := Normal tt;
     captureR := fun history code options =>
       if JsString.eqb code (js "stop()")
       then Throw (new_Error (js "Error in stop(): invalid call"))
       else Normal {| Raw.output := Some [captured (Stdout, js "[1] 42")];
                      Raw.images := Some [7%N] |};
     null_read_error :=
       new_Error (js "Cannot read properties of null (reading 'captureR')");
     message_read_error := fun v =>
       match v with
       | Thrown_undefined =>
         new_Error
           (js "Cannot read properties of undefined (reading 'message')")
       | _ => new_Error (js "Cannot read properties of null (reading 'message')")
       end;
     JSON_parse := fun text =>
       if JsString.eqb text (js "[1] 42") then None
       else Some (VStr text) |}.

(** An engine whose start-up fails. *)
Definition broken_engine : Engine :=
  {| performance_clock := performance_clock demo_engine;
     webR_init := Throw (new_Error (js "network"));
     webR_Shelter := Normal tt;
     captureR := captureR demo_engine;
     null_read_error := null_read_error demo_engine;
     message_read_error := message_read_error demo_engine;
     JSON_parse := JSON_parse demo_engine |}.

(** A freshly constructed service, and the same after [initialize]. *)
Definition fresh_service : State := constructor no_overrides.

Definition demo_service : State := snd (initialize demo_engine fresh_service).

Definition tiny_config : ConfigOptions :=
  {| maxOutputLength := 3; plotWidth := 800; plotHeight := 600 |}.

(* --------------------------------------------------------------------- *)
(** *** Shapes of the table entries *)
(* --------------------------------------------------------------------- *)

(** ASCII letters and the space: the characters the literal patterns of
    the table are made of. *)
Definition is_plain (c : N) : bool :=
  (((65 <=? c) && (c <=? 90)) || ((97 <=? c) && (c <=? 122)) || (c =? 32))%N.

(** A literal plain character as a pattern term. *)
Definition plain_term (t : RegExp.term) : bool :=
  match t with
  | RegExp.One (RegExp.Char c) => is_plain c
  | _ => false
  end.

(** A non-empty pattern of plain literal characters only. *)
Definition literal_plain (re : RegExp.regex) : bool :=
  negb (List.length re =? 0)%nat && forallb plain_term re.

(** A non-empty text without any plain character. *)
Definition phrase (t : jsstring) : bool :=
  JsString.truthy t && forallb (fun c => negb (is_plain c)) t.

(** The JSON text of the object captured for an empty line on stdout. *)
Definition empty_stdout_dump : jsstring :=
  js "{" ++ LF
  ++ js "  " ++ JSON.quote (js "type") ++ js ": " ++ JSON.quote (js "stdout")
  ++ js "," ++ LF
  ++ js "  " ++ JSON.quote (js "data") ++ js ": " ++ JSON.quote []
  ++ LF ++ js "}".



(* ===================================================================== *)
(** ** The remaining methods of the service *)
(* ===================================================================== *)

(** [JSON.stringify(v)] without indentation; [None] is [undefined]. *)
Definition JSON_stringify (v : jsval) : option jsstring :=
  JSON.serialize [] [] v.

(** The text a template literal makes of a [JSON.stringify] result. *)
Definition stringified_text (v : option jsstring) : jsstring :=
  match v with
  | Some text => text
  | None => js "undefined"
  end.

(** The source text [loadData] builds. *)
Definition loadData_code (variableName : jsstring) (data : jsval) : jsstring :=
  let jsonString := JSON_stringify data in
  LF ++ js "                library(jsonlite)"
  ++ LF ++ js "                " ++ variableName ++ js " <- fromJSON('"
  ++ stringified_text jsonString ++ js "')"
  ++ LF ++ js "            ".

(** The source text [installPackage] builds. *)
Definition installPackage_code (packageName : jsstring) : jsstring :=
  LF ++ js "                # WebRではパッケージインストールに制限があります"
  ++ LF ++ js "                if (!require(" ++ [34%N] ++ packageName ++ [34%N]
  ++ js ", quietly = TRUE)) {"
  ++ LF ++ js "                    warning(" ++ [34%N] ++ js "パッケージ '"
  ++ packageName ++ js "' は利用できません" ++ [34%N] ++ js ")"
  ++ LF ++ js "                    FALSE"
  ++ LF ++ js "                } else {"
  ++ LF ++ js "                    message(" ++ [34%N] ++ js "パッケージ '"
  ++ packageName ++ js "' が利用可能です" ++ [34%N] ++ js ")"
  ++ LF ++ js "                    TRUE"
  ++ LF ++ js "                }"
  ++ LF ++ js "            ".

Section MoreService.

Variable E : Engine.

Local Open Scope js_scope.

(** [loadData(variableName, data)]. *)
Definition loadData (variableName : jsstring) (data : jsval) : M.t bool :=
  is_ready <- M.gets ready ;;
  if negb is_ready then M.throw not_initialized
  else
    M.try_catch
      (let code := loadData_code variableName data in
       result <- executeCode E code ;;
       M.ret (success result))
      (fun error => M.ret false).

(** [installPackage(packageName)]. *)
Definition installPackage (packageName : jsstring) : M.t bool :=
  is_ready <- M.gets ready ;;
  if negb is_ready then M.throw not_initialized
  else
    M.try_catch
      (let code := installPackage_code packageName in
       result <- executeCode E code ;;
       M.ret (success result))
      (fun error => M.ret false).

(** The states a service goes through: constructed, then any sequence
    of its public methods. *)
Inductive reachable : State -> Prop :=
| reach_constructor (given : ConfigOverrides) :
    reachable (constructor given)
| reach_initialize (st : State) :
    reachable st -> reachable (snd (initialize E st))
| reach_executeCode (st : State) (code : jsstring) :
    reachable st -> reachable (snd (executeCode E code st))
| reach_cancelExecution (st : State) :
    reachable st -> reachable (snd (cancelExecution st))
| reach_destroy (st : State) :
    reachable st -> reachable (snd (destroy st))
| reach_loadData (st : State) (name : jsstring) (data : jsval) :
    reachable st -> reachable (snd (loadData name data st))
| reach_installPackage (st : State) (name : jsstring) :
    reachable st -> reachable (snd (installPackage name st))
| reach_getVariable (st : State) (name : jsstring) :
    reachable st -> reachable (snd (getVariable E name st)).

End MoreService.

(** The state [initialize] leaves when both engine steps succeed. *)
Definition initialized (st : State) : State :=
  {| webR := Some WebR_new;
     shelter := Some Shelter_new;
     ready := true;
     config := config st;
     currentExecution := currentExecution st;
     calls := calls st ++ [(setup_code, None)];
     clock_reads := clock_reads st |}.

(** The state [destroy] leaves. *)
Definition destroyed (st : State) : State :=
  {| webR := None;
     shelter := None;
     ready := false;
     config := config st;
     currentExecution := None;
     calls := calls st;
     clock_reads := clock_reads st |}.

(** A ready service holds its engine and shelter, and no cancellation
    handle is kept between calls. *)
Definition consistent (st : State) : Prop :=
  (ready st = true -> webR st = Some WebR_new /\ shelter st = Some Shelter_new)
  /\ currentExecution st = None.

(** An engine whose session set-up call fails. *)
Definition setup_failing_engine : Engine :=
  {| performance_clock := performance_clock demo_engine;
     webR_init := Normal tt;
     webR_Shelter := Normal tt;
     captureR := fun history code options =>
       match options with
       | None => Throw (new_Error (js "locale"))
       | Some _ => captureR demo_engine history code options
       end;
     null_read_error := null_read_error demo_engine;
     message_read_error := message_read_error demo_engine;
     JSON_parse := JSON_parse demo_engine |}.

(** What a call leaves alone: the engine handles, the readiness flag
    and the configuration. *)
Definition same_service (st st' : State) : Prop :=
  webR st' = webR st /\ shelter st' = shelter st
  /\ ready st' = ready st /\ config st' = config st.

(** Whether the shelter field holds a shelter. *)
Definition has_shelter (st : State) : bool :=
  match shelter st with Some _ => true | None => false end.

(* ===================================================================== *)
(** ** More string operations *)
(* ===================================================================== *)

Module JsText.

(** [s.split(sep)] for a separator of one code unit: the pieces between
    the separators, at least one piece. *)
Fixpoint split (sep : N) (s : jsstring) : list jsstring :=
  match s with
  | [] => [[]]
  | c :: s' =>
    if (c =? sep)%N then [] :: split sep s'
    else
      match split sep s' with
      | piece :: more => (c :: piece) :: more
      | [] => [[c]]
      end
  end.

(** [s.padStart(target, fill)] for a fill of one code unit. *)
Definition padStart (target : nat) (fill : N) (s : jsstring) : jsstring :=
  repeat fill (target - List.length s) ++ s.

(** [s.substring(start)]: from [start] to the end. *)
Definition substring_from (s : jsstring) (start : Z) : jsstring :=
  substring s start (Z.of_nat (List.length s)).

(** [array.map((x, i) => f(i, x))], counting from [i]. *)
Fixpoint map_index {A B} (f : nat -> A -> B) (i : nat) (l : list A) : list B :=
  match l with
  | [] => []
  | x :: more => f i x :: map_index f (S i) more
  end.

End JsText.
Import JsText.

(* ===================================================================== *)
(** ** The page: controller, storage and examples *)
(* ===================================================================== *)

(** [localStorage]: the stored items, newest first, one per key. *)
Module Storage.

Definition t : Type := list (jsstring * jsstring).

Fixpoint getItem (key : jsstring) (store : t) : option jsstring :=
  match store with
  | [] => None
  | (k, v) :: more => if JsString.eqb k key then Some v else getItem key more
  end.

Fixpoint removeItem (key : jsstring) (store : t) : t :=
  match store with
  | [] => []
  | (k, v) :: more =>
    if JsString.eqb k key then removeItem key more
    else (k, v) :: removeItem key more
  end.

Definition setItem (key value : jsstring) (store : t) : t :=
  (key, value) :: removeItem key store.

End Storage.

(** The text area of the code editor. *)
Record TextArea : Type := {
  value : jsstring;
  selectionStart : Z;
  selectionEnd : Z
}.

(** The run button. *)
Record Button : Type := {
  disabled : bool;
  textContent : jsstring;
  loading : bool
}.

(** [style.display] of the plot area. *)
Inductive display : Type := display_unset | display_block | display_none.

(** The controller with the page elements it writes to.  Scrolling,
    focus and console logging are not represented. *)
Record UIController : Type := {
  codeInput : TextArea;
  outputDiv : jsstring;
  plotArea : display;
  plotArea_fade_in : bool;
  plotCanvas : option ImageBitmap;
  runBtn : Button;
  webRService : bool;
  isRunning : bool
}.

(** The controller together with the service it drives and the
    browser's storage. *)
Record Page : Type := {
  ui : UIController;
  service : State;
  localStorage : Storage.t
}.

Definition set_codeInput (v : TextArea) (u : UIController) : UIController :=
  {| codeInput := v; outputDiv := outputDiv u; plotArea := plotArea u;
     plotArea_fade_in := plotArea_fade_in u; plotCanvas := plotCanvas u;
     runBtn := runBtn u; webRService := webRService u;
     isRunning := isRunning u |}.

Definition set_outputDiv (v : jsstring) (u : UIController) : UIController :=
  {| codeInput := codeInput u; outputDiv := v; plotArea := plotArea u;
     plotArea_fade_in := plotArea_fade_in u; plotCanvas := plotCanvas u;
     runBtn := runBtn u; webRService := webRService u;
     isRunning := isRunning u |}.

(** [formatCode(code)]. *)
Definition formatCode (code : jsstring) : jsstring :=
  let lines := split 10 code in
  join LF
    (map_index
       (fun i line =>
          js "  " ++ padStart 3 32 (numberToString (Z.of_nat (i + 1)))
             ++ js ": " ++ line)
       0 lines).

(** [appendOutput(text, clear)]. *)
Definition appendOutput (text : jsstring) (clear : bool) (u : UIController)
  : UIController :=
  if clear then set_outputDiv text u
  else set_outputDiv (outputDiv u ++ text) u.

(** [showWarning(message)]. *)
Definition showWarning (msg : jsstring) (u : UIController) : UIController :=
  appendOutput (js "⚠️ 警告: " ++ msg ++ LF) false u.

(** [showError(message)]. *)
Definition showError (msg : jsstring) (u : UIController) : UIController :=
  appendOutput (js "❌ エラー: " ++ msg ++ LF) false u.

(** [hidePlot()]. *)
Definition hidePlot (u : UIController) : UIController :=
  {| codeInput := codeInput u; outputDiv := outputDiv u;
     plotArea := display_none;
     plotArea_fade_in := plotArea_fade_in u; plotCanvas := plotCanvas u;
     runBtn := runBtn u; webRService := webRService u;
     isRunning := isRunning u |}.

(** [displayPlot(image)]. *)
Definition displayPlot (image : ImageBitmap) (u : UIController) : UIController :=
  {| codeInput := codeInput u; outputDiv := outputDiv u;
     plotArea := display_block;
     plotArea_fade_in := true; plotCanvas := Some image;
     runBtn := runBtn u; webRService := webRService u;
     isRunning := isRunning u |}.

(** [setRunning(isRunning)]. *)
Definition setRunning (running : bool) (u : UIController) : UIController :=
  {| codeInput := codeInput u; outputDiv := outputDiv u;
     plotArea := plotArea u;
     plotArea_fade_in := plotArea_fade_in u; plotCanvas := plotCanvas u;
     runBtn :=
       if running
       then {| disabled := true; textContent := js "実行中...";
               loading := true |}
       else {| disabled := false; textContent := js "実行 (Ctrl+Enter)";
               loading := false |};
     webRService := webRService u;
     isRunning := running |}.

(** Truthiness of [result.executionTime]: present and not zero. *)
Definition time_truthy (t : option Z) : bool :=
  match t with Some z => negb (z =? 0)%Z | None => false end.

(** The text [displayOutput] assembles for a result and the trimmed
    editor content. *)
Definition output_text (result : ExecutionResult) (code : jsstring) : jsstring :=
  (if time_truthy (executionTime result)
   then js "実行時間: "
        ++ numberToString (or_default (executionTime result) 0%Z)
        ++ js "ms" ++ LF ++ LF
   else [])
  ++ js "実行されたコード:" ++ LF
  ++ formatCode code ++ LF ++ LF
  ++ js "結果:" ++ LF
  ++ (if success result
      then
        (if option_truthy (output result)
            && JsString.truthy (trim (or_default (output result) []))
         then or_default (output result) []
         else js "(出力なし)")
        ++ (match images result with
            | Some (_ :: _) => LF ++ LF ++ js "[プロットが生成されました]"
            | _ => []
            end)
      else
        js "エラー: "
        ++ (if option_truthy (error result)
            then or_default (error result) []
            else js "不明なエラー")).

(** [displayOutput(result)]. *)
Definition displayOutput (result : ExecutionResult) (u : UIController)
  : UIController :=
  let code := trim (value (codeInput u)) in
  let u' :=
    if success result then
      match images result with
      | Some ((_ :: _) as imgs) => displayPlot (last imgs 0%N) u
      | _ => hidePlot u
      end
    else hidePlot u in
  set_outputDiv (output_text result code) u'.

(** Assigning [codeInput.value]: the cursor moves to the end of the
    new text. *)
Definition assign_value (text : jsstring) : TextArea :=
  {| value := text;
     selectionStart := Z.of_nat (List.length text);
     selectionEnd := Z.of_nat (List.length text) |}.

Definition set_ui (u : UIController) (p : Page) : Page :=
  {| ui := u; service := service p; localStorage := localStorage p |}.

(** [runCode()]: the page it leaves.  When the [catch] block itself
    throws, on reading the message of a null or undefined value, only the
    [finally] block still runs. *)
Definition runCode (E : Engine) (p : Page) : Page :=
  if negb (webRService (ui p)) || negb (ready (service p)) then
    set_ui (showError (js "WebRが初期化されていません") (ui p)) p
  else if isRunning (ui p) then
    set_ui (showWarning (js "コードは既に実行中です") (ui p)) p
  else
    let code := trim (value (codeInput (ui p))) in
    if negb (JsString.truthy code) then
      set_ui (showWarning (js "コードを入力してください") (ui p)) p
    else
      let u1 := setRunning true (ui p) in
      let u2 := appendOutput (js "実行中..." ++ LF ++ LF) true u1 in
      match executeCode E code (service p) with
      | (Normal result, st') =>
        {| ui := setRunning false (displayOutput result u2);
           service := st';
           localStorage := localStorage p |}
      | (Throw (Thrown_object error), st') =>
        {| ui := setRunning false
                   (showError (js "実行エラー: " ++ message_text error) u2);
           service := st';
           localStorage := localStorage p |}
      | (Throw _, st') =>
        {| ui := setRunning false u2;
           service := st';
           localStorage := localStorage p |}
      end.

(** [insertTab()]. *)
Definition insertTab (u : UIController) : UIController :=
  let start := selectionStart (codeInput u) in
  let finish := selectionEnd (codeInput u) in
  let text := value (codeInput u) in
  set_codeInput
    {| value := substring text 0 start ++ js "  " ++ substring_from text finish;
       selectionStart := start + 2;
       selectionEnd := start + 2 |} u.

Definition code_key : jsstring := js "webr-playground-code".
Definition theme_key : jsstring := js "webr-playground-theme".

(** [saveCode()]. *)
Definition saveCode (p : Page) : Page :=
  {| ui := ui p; service := service p;
     localStorage :=
       Storage.setItem code_key (value (codeInput (ui p))) (localStorage p) |}.

(** [loadSavedCode()]. *)
Definition loadSavedCode (p : Page) : Page :=
  match Storage.getItem code_key (localStorage p) with
  | Some ((_ :: _) as code) =>
    set_ui (set_codeInput (assign_value code) (ui p)) p
  | _ => p
  end.

(* ===================================================================== *)
(** ** Keyboard shortcuts *)
(* ===================================================================== *)

(** A plain object used as a table: assigning to an existing key keeps
    its place, a new key goes last. *)
Module Table.

Fixpoint get {A} (key : jsstring) (table : list (jsstring * A)) : option A :=
  match table with
  | [] => None
  | (k, v) :: more => if JsString.eqb k key then Some v else get key more
  end.

Fixpoint set {A} (key : jsstring) (v : A) (table : list (jsstring * A))
  : list (jsstring * A) :=
  match table with
  | [] => [(key, v)]
  | (k, old) :: more =>
    if JsString.eqb k key then (k, v) :: more
    else (k, old) :: set key v more
  end.

End Table.

(** The name whose assignment sets the prototype of an object. *)
Definition proto_name : jsstring := js "__proto__".

(** The names a plain object inherits from [Object.prototype]. *)
Definition Object_prototype_names : list jsstring :=
  [js "constructor"; js "__defineGetter__"; js "__defineSetter__";
   js "hasOwnProperty"; js "__lookupGetter__"; js "__lookupSetter__";
   js "isPrototypeOf"; js "propertyIsEnumerable"; js "toString";
   js "valueOf"; proto_name; js "toLocaleString"].

(** What the assignment [object[name] = value] does to a plain object. *)
Inductive assigned (A : Type) : Type :=
| Stored (table : list (jsstring * A))
| Prototype_replaced (prototype : A).
Arguments Stored {A} table.
Arguments Prototype_replaced {A} prototype.

(** What [handleKeyboardShortcut] does with an event: it calls a
    registered action, it calls the value [Object.prototype] holds under
    the name (under [__proto__], the prototype itself), or it does
    nothing. *)
Inductive dispatch (A : Type) : Type :=
| Calls (action : A)
| Calls_inherited (name : jsstring)
| Ignores.
Arguments Calls {A} action.
Arguments Calls_inherited {A} name.
Arguments Ignores {A}.

(** The fields of a [KeyboardEvent] the controller reads. *)
Record KeyboardEvent : Type := {
  key : jsstring;
  ctrlKey : bool;
  metaKey : bool;
  shiftKey : bool;
  altKey : bool
}.

Section Shortcuts.

(** [String.prototype.toLowerCase], left to the engine. *)
Variable toLowerCase : jsstring -> jsstring.

(** The actions a shortcut can be bound to. *)
Variable Action : Type.

(** The array [getShortcutKey] joins. *)
Definition shortcut_parts (key : jsstring) (ctrl shift alt : bool)
  : list jsstring :=
  (if ctrl then [js "ctrl"] else [])
  ++ (if shift then [js "shift"] else [])
  ++ (if alt then [js "alt"] else [])
  ++ [toLowerCase key].

(** [getShortcutKey(key, ctrl, shift, alt)]. *)
Definition getShortcutKey (key : jsstring) (ctrl shift alt : bool) : jsstring :=
  join (js "+") (shortcut_parts key ctrl shift alt).

(** [registerShortcut(key, ctrl, shift, alt, action)] on the own
    properties of [this.shortcuts], a plain object.  The assignment
    [this.shortcuts[shortcutKey] = action] stores an own property, except
    under the name [__proto__], where it makes the action the prototype
    of the object and stores nothing. *)
Definition registerShortcut (key : jsstring) (ctrl shift alt : bool)
  (action : Action) (shortcuts : list (jsstring * Action))
  : assigned Action :=
  let shortcutKey := getShortcutKey key ctrl shift alt in
  if JsString.eqb shortcutKey proto_name
  then Prototype_replaced action
  else Stored (Table.set shortcutKey action shortcuts).

(** [handleKeyboardShortcut(event)] on a plain object with the given own
    properties: the read [this.shortcuts[key]] finds an own property
    first and the properties of [Object.prototype] next; what it finds is
    truthy and gets called. *)
Definition handleKeyboardShortcut (shortcuts : list (jsstring * Action))
  (event : KeyboardEvent) : dispatch Action :=
  let k := getShortcutKey (key event) (ctrlKey event || metaKey event)
             (shiftKey event) (altKey event) in
  match Table.get k shortcuts with
  | Some action => Calls action
  | None =>
    if existsb (JsString.eqb k) Object_prototype_names
    then Calls_inherited k
    else Ignores
  end.

End Shortcuts.

(** A text without the plus sign. *)
Definition plus_free (s : jsstring) : bool :=
  forallb (fun c => negb (c =? 43)%N) s.

(** A sample lower-casing, exact on ASCII text. *)
Definition ascii_lower (s : jsstring) : jsstring :=
  List.map (fun c => if ((65 <=? c) && (c <=? 90))%N then (c + 32)%N else c) s.

(* ===================================================================== *)
(** ** The example catalogue *)
(* ===================================================================== *)

(** One entry of the [examples] object. *)
Record CodeExample : Type := {
  ex_id : jsstring;
  ex_label : jsstring;
  ex_category : jsstring;
  ex_description : jsstring;
  ex_code : jsstring
}.

(** A [Set] of strings in insertion order. *)
Definition set_add (x : jsstring) (s : list jsstring) : list jsstring :=
  if existsb (JsString.eqb x) s then s else s ++ [x].

Section Examples.

(** The [examples] object: its keys with their entries, in the order
    they are written. *)
Variable examples : list (jsstring * CodeExample).

(** [Object.values(examples)]. *)
Definition Object_values : list CodeExample := List.map snd examples.

(** [getExamplesByCategory(category)]. *)
Definition getExamplesByCategory (category : jsstring) : list CodeExample :=
  filter (fun ex => JsString.eqb (ex_category ex) category) Object_values.

(** [getExampleCode(id)]; [None] is [null]. *)
Definition getExampleCode (id : jsstring) : option jsstring :=
  match Table.get id examples with
  | Some ex => if JsString.truthy (ex_code ex) then Some (ex_code ex) else None
  | None => None
  end.

(** [getAllExamples()]. *)
Definition getAllExamples : list CodeExample := Object_values.

(** [getCategories()]. *)
Definition getCategories : list jsstring :=
  fold_left
    (fun categories ex =>
       if JsString.truthy (ex_category ex)
       then set_add (ex_category ex) categories
       else categories)
    Object_values [].

(** [loadExample(exampleId)] on the controller. *)
Definition loadExample (exampleId : jsstring) (u : UIController) : UIController :=
  match getExampleCode exampleId with
  | Some code =>
    set_codeInput {| value := code; selectionStart := 0; selectionEnd := 0 |} u
  | None => u
  end.

End Examples.

(** A small catalogue with the shape of the real one. *)
Definition demo_examples : list (jsstring * CodeExample) :=
  [ (js "basic",
     {| ex_id := js "basic"; ex_label := js "基本統計";
        ex_category := js "basic"; ex_description := js "stats";
        ex_code := js "x <- c(1, 4, 7)" |});
    (js "plot",
     {| ex_id := js "plot"; ex_label := js "グラフ作成";
        ex_category := js "visualization"; ex_description := js "sine";
        ex_code := js "plot(sin)" |});
    (js "dataframe",
     {| ex_id := js "dataframe"; ex_label := js "データフレーム";
        ex_category := js "basic"; ex_description := js "frames";
        ex_code := js "print(df)" |}) ].

(* ===================================================================== *)
(** ** The application: theme preference *)
(* ===================================================================== *)

(** What the application reads from the browser: the dark-scheme media
    query ([None] when [matchMedia] is missing) and the storage. *)
Record Browser : Type := {
  prefers_dark : option bool;
  storage : Storage.t;
  body_theme : option jsstring
}.

(** [getPreferredTheme()]. *)
Definition getPreferredTheme (b : Browser) : jsstring :=
  if or_default (prefers_dark b) false then js "dark"
  else
    match Storage.getItem theme_key (storage b) with
    | Some savedTheme =>
      if JsString.eqb savedTheme (js "dark")
         || JsString.eqb savedTheme (js "light")
      then savedTheme
      else js "light"
    | None => js "light"
    end.

(** [setTheme(theme)]: the new [config.theme] and the browser after. *)
Definition setTheme (theme : jsstring) (b : Browser) : jsstring * Browser :=
  (theme,
   {| prefers_dark := prefers_dark b;
      storage := Storage.setItem theme_key theme (storage b);
      body_theme := Some theme |}).

(* --------------------------------------------------------------------- *)
(** *** A concrete page *)
(* --------------------------------------------------------------------- *)

Definition demo_ui : UIController :=
  {| codeInput := {| value := js "  plot(1)  "; selectionStart := 2;
                     selectionEnd := 6 |};
     outputDiv := [];
     plotArea := display_unset;
     plotArea_fade_in := false;
     plotCanvas := None;
     runBtn := {| disabled := false; textContent := js "実行 (Ctrl+Enter)";
                  loading := false |};
     webRService := true;
     isRunning := false |}.

Definition demo_page : Page :=
  {| ui := demo_ui; service := demo_service; localStorage := [] |}.

(* --------------------------------------------------------------------- *)
(** *** Vocabulary for lines *)
(* --------------------------------------------------------------------- *)

(** A text without the separator. *)
Definition sep_free (sep : N) (s : jsstring) : bool :=
  forallb (fun c => negb (c =? sep)%N) s.

(** A decimal digit or the minus sign. *)
Definition is_digit_or_minus (c : N) : bool :=
  (((48 <=? c) && (c <=? 57)) || (c =? 45))%N.

(** The numbered form [formatCode] gives line [i] (counting from 0). *)
Definition numbered (i : nat) (line : jsstring) : jsstring :=
  js "  " ++ padStart 3 32 (numberToString (Z.of_nat (i + 1)))
     ++ js ": " ++ line.

(** How [executeCode] ends once the engine is reached: a success
    result when [captureR] resolves, a failure result when it rejects with
    a value whose message can be read, and the TypeError of that read when
    it rejects with [null] or [undefined]. *)
Definition engine_outcome (E : Engine) (code : jsstring) (st : State)
  : completion ExecutionResult :=
  match captureR E (calls st) code (execute_options st) with
  | Normal raw => Normal (success_result E raw st)
  | Throw (Thrown_object e) => Normal (failure_result E e st)
  | Throw v => Throw (message_read_error E v)
  end.



(* ===================================================================== *)
(** ** Basic facts *)
(* ===================================================================== *)

Lemma jsstring_eqb_eq (a b : jsstring) : JsString.eqb a b = true <-> a = b.
Proof.
  unfold JsString.eqb. destruct (list_eq_dec N.eq_dec a b); split; congruence.
Qed.

Lemma trimStart_nil_iff (s : jsstring) :
  trimStart s = [] <-> forallb is_trimmed s = true.
Proof.
  induction s as [|c s IH]; simpl.
  - tauto.
  - destruct (is_trimmed c); simpl.
    + exact IH.
    + split; discriminate.
Qed.

Lemma trimStart_head (s : jsstring) :
  match trimStart s with
  | [] => True
  | c :: _ => is_trimmed c = false
  end.
Proof.
  induction s as [|c s IH]; simpl; [exact I|].
  destruct (is_trimmed c) eqn:Hc; [exact IH | exact Hc].
Qed.

Lemma forallb_rev {A} (f : A -> bool) (l : list A) :
  forallb f (rev l) = forallb f l.
Proof.
  induction l as [|a l IH]; simpl; [reflexivity|].
  rewrite forallb_app, IH. simpl. rewrite andb_true_r. apply andb_comm.
Qed.

Lemma trim_nil_iff (s : jsstring) :
  trim s = [] <-> whitespace_only s = true.
Proof.
  unfold trim, trimEnd, whitespace_only. split.
  - intros H.
    assert (Hr : trimStart (rev (trimStart s)) = []).
    { destruct (trimStart (rev (trimStart s))) as [|x l] eqn:Hx; [reflexivity|].
      simpl in H. destruct (rev l); discriminate. }
    apply trimStart_nil_iff in Hr. rewrite forallb_rev in Hr.
    pose proof (trimStart_head s) as Hh.
    destruct (trimStart s) as [|c l] eqn:Hs.
    + apply trimStart_nil_iff. exact Hs.
    + simpl in Hr. rewrite Hh in Hr. discriminate.
  - intros H. apply trimStart_nil_iff in H. rewrite H. reflexivity.
Qed.

(** The guard of [executeCode] fires exactly on white-space-only text. *)
Lemma is_blank_iff (code : jsstring) :
  is_blank code = true <-> whitespace_only code = true.
Proof.
  unfold is_blank. split.
  - intros H. apply orb_true_iff in H. destruct H as [H|H].
    + destruct code; [reflexivity | discriminate].
    + apply trim_nil_iff. destruct (trim code); [reflexivity | discriminate].
  - intros H. apply trim_nil_iff in H. rewrite H. simpl. apply orb_true_r.
Qed.

Lemma is_blank_false (code : jsstring) :
  whitespace_only code = false -> is_blank code = false.
Proof.
  intros H. destruct (is_blank code) eqn:Hb; [|reflexivity].
  apply is_blank_iff in Hb. congruence.
Qed.

(* ===================================================================== *)
(** ** The paths of [executeCode] *)
(* ===================================================================== *)

Section ExecutePaths.

Variable E : Engine.

Lemma executeCode_not_ready (code : jsstring) (st : State) :
  ready st = false ->
  executeCode E code st = (Throw not_initialized, st).
Proof.
  intros Hr. unfold executeCode, M.bind, M.gets, M.throw.
  rewrite Hr. reflexivity.
Qed.

Lemma executeCode_blank (code : jsstring) (st : State) :
  ready st = true -> is_blank code = true ->
  executeCode E code st = (Normal no_code_result, st).
Proof.
  intros Hr Hb. unfold executeCode, M.bind, M.gets, M.ret.
  rewrite Hr. simpl. unfold is_blank in Hb. rewrite Hb. reflexivity.
Qed.

Lemma executeCode_null_shelter (code : jsstring) (st : State) :
  ready st = true -> is_blank code = false -> shelter st = None ->
  executeCode E code st
  = (Normal (failure_result E (null_read_error E) st),
     after_execution false code st).
Proof.
  intros Hr Hb Hs. unfold executeCode, M.bind, M.gets.
  rewrite Hr. simpl. unfold is_blank in Hb. rewrite Hb.
  unfold M.try_finally, M.try_catch, M.bind, performance_now,
    shelter_captureR, set_currentExecution, M.modify, M.gets, M.ret.
  destruct st; simpl in *. subst. reflexivity.
Qed.

Lemma executeCode_engine (code : jsstring) (st : State) :
  ready st = true -> is_blank code = false -> shelter st <> None ->
  executeCode E code st
  = (engine_outcome E code st, after_execution true code st).
Proof.
  intros Hr Hb Hs. unfold executeCode, M.bind, M.gets.
  rewrite Hr. simpl. unfold is_blank in Hb. rewrite Hb.
  unfold M.try_finally, M.try_catch, M.bind, performance_now,
    shelter_captureR, set_currentExecution, M.modify, M.gets, M.ret.
  unfold engine_outcome, after_execution, success_result, failure_result,
    measured, execute_options.
  destruct st as [w sh r cfg cur cs n]; simpl in *.
  destruct sh as [sh|]; [|contradiction].
  destruct (captureR E cs code _) as [raw|[| |e]]; reflexivity.
Qed.

(** Every way [executeCode] can end. *)
Lemma executeCode_cases (code : jsstring) (st : State) :
  (ready st = false /\ executeCode E code st = (Throw not_initialized, st))
  \/ (ready st = true /\ executeCode E code st = (Normal no_code_result, st))
  \/ (ready st = true
      /\ executeCode E code st
         = (Normal (failure_result E (null_read_error E) st),
            after_execution false code st))
  \/ (ready st = true
      /\ exists e : JsError,
           captureR E (calls st) code (execute_options st) = Throw e
           /\ executeCode E code st
              = (Normal (failure_result E e st), after_execution true code st))
  \/ (ready st = true
      /\ exists raw,
           captureR E (calls st) code (execute_options st) = Normal raw
           /\ executeCode E code st
              = (Normal (success_result E raw st), after_execution true code st))
  \/ (ready st = true
      /\ exists v,
           (v = Thrown_undefined \/ v = Thrown_null)
           /\ captureR E (calls st) code (execute_options st) = Throw v
           /\ executeCode E code st
              = (Throw (message_read_error E v), after_execution true code st)).
Proof.
  destruct (ready st) eqn:Hr.
  - right. destruct (is_blank code) eqn:Hb.
    + left. split; [reflexivity|]. apply executeCode_blank; assumption.
    + right. destruct (shelter st) as [sh|] eqn:Hs.
      * right.
        assert (Hne : shelter st <> None) by congruence.
        pose proof (executeCode_engine code st Hr Hb Hne) as H.
        unfold engine_outcome in H.
        destruct (captureR E (calls st) code (execute_options st))
          as [raw|[| |e]] eqn:Hc.
        -- right. left. split; [reflexivity|]. exists raw.
           split; [reflexivity | exact H].
        -- right. right. split; [reflexivity|]. exists Thrown_undefined.
           split; [left; reflexivity|]. split; [reflexivity | exact H].
        -- right. right. split; [reflexivity|]. exists Thrown_null.
           split; [right; reflexivity|]. split; [reflexivity | exact H].
        -- left. split; [reflexivity|]. exists e. split; [reflexivity | exact H].
      * left. split; [reflexivity|]. apply executeCode_null_shelter; assumption.
  - left. split; [reflexivity|]. apply executeCode_not_ready. exact Hr.
Qed.

(** The only values [executeCode] throws are Error objects. *)
Lemma executeCode_throws_object (code : jsstring) (st st' : State) (v : thrown) :
  executeCode E code st = (Throw v, st') ->
  exists e : JsError, v = Thrown_object e.
Proof.
  intros H.
  destruct (executeCode_cases code st)
    as [[_ Hx]|[[_ Hx]|[[_ Hx]|[[_ [e [Hc Hx]]]|[[_ [raw [Hc Hx]]]
                                               |[_ [w [Hw [Hc Hx]]]]]]]]];
    rewrite Hx in H; inversion H; subst; eexists; reflexivity.
Qed.

End ExecutePaths.

(* ===================================================================== *)
(** ** Execution results *)
(* ===================================================================== *)




(** C2.  In every result [executeCode] returns, [output] is present
    exactly when [success] is true and [error] exactly when it is false,
    so exactly one of the two is present; and [images] holds an image only
    when [success] is true and the engine's capture returned those
    images. *)
Theorem execution_result_invariant
  (E : Engine) (code : jsstring) (st st' : State) (r : ExecutionResult) :
  executeCode E code st = (Normal r, st') ->
  (output r <> None <-> success r = true)
  /\ (error r <> None <-> success r = false)
  /\ (output r <> None <-> error r = None)
  /\ (forall imgs,
        images r = Some imgs -> imgs <> [] ->
        success r = true
        /\ exists raw,
             captureR E (calls st) code (execute_options st) = Normal raw
             /\ Raw.images raw = Some imgs).
Proof.
  intros H.
  destruct (executeCode_cases E code st)
    as [[_ Hx]|[[_ Hx]|[[_ Hx]|[[_ [e [Hc Hx]]]|[[_ [raw [Hc Hx]]]
                                               |[_ [w [Hw [Hc Hx]]]]]]]]];
    rewrite Hx in H; inversion H; subst; clear H; simpl.
  - repeat split; try congruence; try discriminate.
  - repeat split; try congruence; try discriminate.
  - repeat split; try congruence; try discriminate.
  - split; [|split; [|split]].
    + split; [reflexivity | discriminate].
    + split; congruence.
    + split; [reflexivity | discriminate].
    + intros imgs Hi Hne. split; [reflexivity|].
      exists raw. split; [exact Hc|].
      destruct (Raw.images raw) as [l|]; simpl in Hi.
      * exact Hi.
      * inversion Hi. congruence.
Qed.

Lemma execution_result_invariant_witness :
  exists raw,
    captureR demo_engine (calls demo_service) (js "plot(1)")
      (execute_options demo_service) = Normal raw
    /\ Raw.images raw = Some [7%N].
Proof.
  refine (proj2 (proj2 (proj2 (proj2
    (execution_result_invariant demo_engine (js "plot(1)") demo_service
       (after_execution true (js "plot(1)") demo_service)
       (success_result demo_engine
          {| Raw.output := Some [captured (Stdout, js "[1] 42")];
             Raw.images := Some [7%N] |} demo_service)
       _))) [7%N] _ _)).
  - reflexivity.
  - reflexivity.
  - discriminate.
Defined.

(** C6.  When the service is ready and the code is empty or consists of
    white space only, [executeCode] returns [success = false] with the
    fixed "no code" text as [error] and without an [executionTime]; the
    state is untouched, so the engine received no call and the clock was
    not read. *)
Theorem executeCode_blank_code
  (E : Engine) (code : jsstring) (st : State) :
  ready st = true ->
  whitespace_only code = true ->
  exists r st',
    executeCode E code st = (Normal r, st')
    /\ success r = false
    /\ error r = Some (js "コードが入力されていません")
    /\ output r = None
    /\ executionTime r = None
    /\ calls st' = calls st
    /\ st' = st.
Proof.
  intros Hr Hw. exists no_code_result, st.
  split.
  - apply executeCode_blank; [exact Hr | apply is_blank_iff; exact Hw].
  - repeat split.
Qed.

Lemma executeCode_blank_code_witness :
  exists r st',
    executeCode demo_engine (js "  ") demo_service = (Normal r, st')
    /\ success r = false
    /\ error r = Some (js "コードが入力されていません")
    /\ output r = None
    /\ executionTime r = None
    /\ calls st' = calls demo_service
    /\ st' = demo_service.
Proof.
  apply (executeCode_blank_code demo_engine (js "  ") demo_service).
  - reflexivity.
  - reflexivity.
Defined.

(* ===================================================================== *)
(** ** Readiness *)
(* ===================================================================== *)

Lemma initialize_failure_not_ready (E : Engine) (st st' : State) (v : thrown) :
  initialize E st = (Throw v, st') -> ready st' = false.
Proof.
  unfold initialize, M.try_catch. intros H.
  match type of H with
  | context [match ?b with _ => _ end] => destruct b as [[u|v0] st1]
  end.
  - discriminate.
  - unfold M.bind, set_ready, M.modify, M.throw, read_message, M.ret in H.
    destruct v0; inversion H; reflexivity.
Qed.

Lemma destroy_not_ready (st : State) : ready (snd (destroy st)) = false.
Proof.
  unfold destroy, M.try_catch, M.bind, cancelExecution, M.gets,
    set_currentExecution, set_shelter, set_webR, set_ready, M.modify, M.ret.
  destruct st as [w sh r cfg cur cs n]; simpl.
  destruct cur; destruct sh; reflexivity.
Qed.

(** C8.  Whenever the service is not ready, [executeCode] throws the
    "not initialized" error and returns no result, whatever the code.
    That is the case for a freshly constructed service, after an
    [initialize] that failed, and after [destroy]. *)
Theorem executeCode_not_ready_throws (E : Engine) (code : jsstring) :
  (forall st,
     ready st = false ->
     executeCode E code st = (Throw not_initialized, st))
  /\ (forall given,
        executeCode E code (constructor given)
        = (Throw not_initialized, constructor given))
  /\ (forall st st' e,
        initialize E st = (Throw e, st') ->
        executeCode E code st' = (Throw not_initialized, st'))
  /\ (forall st,
        executeCode E code (snd (destroy st))
        = (Throw not_initialized, snd (destroy st))).
Proof.
  split; [|split; [|split]].
  - intros st Hr. apply executeCode_not_ready. exact Hr.
  - intros given. apply executeCode_not_ready. reflexivity.
  - intros st st' e H. apply executeCode_not_ready.
    exact (initialize_failure_not_ready E st st' e H).
  - intros st. apply executeCode_not_ready. apply destroy_not_ready.
Qed.

Lemma executeCode_not_ready_throws_witness :
  executeCode broken_engine (js "1 + 1")
    (snd (initialize broken_engine fresh_service))
  = (Throw not_initialized, snd (initialize broken_engine fresh_service)).
Proof.
  apply (proj1 (proj2 (proj2
    (executeCode_not_ready_throws broken_engine (js "1 + 1"))))
    fresh_service _ (new_Error (js "WebR初期化に失敗しました: network"))).
  reflexivity.
Defined.

(* ===================================================================== *)
(** ** Truncation *)
(* ===================================================================== *)

Lemma substring_prefix (s : jsstring) (n : N) :
  (n <= N.of_nat (List.length s))%N ->
  substring s 0 (Z.of_N n) = firstn (N.to_nat n) s.
Proof.
  intros Hn. unfold substring.
  replace (Z.to_nat (Z.min (Z.min (Z.max 0 0) (Z.of_nat (List.length s)))
                           (Z.min (Z.max (Z.of_N n) 0) (Z.of_nat (List.length s)))))
    with 0%nat by lia.
  simpl skipn. f_equal. lia.
Qed.

(** C3.  For every output text and configured maximum: a text longer
    than the maximum comes back as its first [maxOutputLength] code units
    followed by the omission suffix, so its length is the maximum plus the
    length of the suffix and it ends with the suffix; a text of length at
    most the maximum comes back unchanged.  The error text of a failed
    result is the text [formatError] (or the empty-code guard) produced,
    whatever its length: [truncateOutput] is not applied to it. *)
Theorem truncateOutput_boundary (cfg : ConfigOptions) (text : jsstring) :
  ((maxOutputLength cfg < N.of_nat (List.length text))%N ->
   truncateOutput cfg text
   = firstn (N.to_nat (maxOutputLength cfg)) text ++ omission_suffix
   /\ List.length (truncateOutput cfg text)
      = (N.to_nat (maxOutputLength cfg) + List.length omission_suffix)%nat)
  /\ ((N.of_nat (List.length text) <= maxOutputLength cfg)%N ->
      truncateOutput cfg text = text)
  /\ (forall (E : Engine) (code : jsstring) (st st' : State)
             (r : ExecutionResult),
        config st = cfg ->
        executeCode E code st = (Normal r, st') ->
        success r = false ->
        error r = Some (js "コードが入力されていません")
        \/ error r = Some (formatError (null_read_error E))
        \/ exists e : JsError,
             captureR E (calls st) code (execute_options st) = Throw e
             /\ error r = Some (formatError e)).
Proof.
  split; [|split].
  - intros Hlt.
    assert (Heq : truncateOutput cfg text
                  = firstn (N.to_nat (maxOutputLength cfg)) text
                    ++ omission_suffix).
    { unfold truncateOutput.
      destruct (N.leb_spec (N.of_nat (List.length text)) (maxOutputLength cfg));
        [lia|].
      rewrite substring_prefix by lia. reflexivity. }
    split; [exact Heq|].
    rewrite Heq, length_app, firstn_length_le; [reflexivity | lia].
  - intros Hle. unfold truncateOutput.
    destruct (N.leb_spec (N.of_nat (List.length text)) (maxOutputLength cfg));
      [reflexivity | lia].
  - intros E code st st' r _ H Hs.
    destruct (executeCode_cases E code st)
      as [[_ Hx]|[[_ Hx]|[[_ Hx]|[[_ [e [Hc Hx]]]|[[_ [raw [Hc Hx]]]
                                                 |[_ [w [Hw [Hc Hx]]]]]]]]];
      rewrite Hx in H; inversion H; subst; clear H; simpl in *.
    + left. reflexivity.
    + right. left. reflexivity.
    + right. right. exists e. split; [exact Hc | reflexivity].
    + discriminate.
Qed.

Lemma truncateOutput_boundary_witness :
  (truncateOutput tiny_config (js "abcd") = js "abc" ++ omission_suffix
   /\ List.length (truncateOutput tiny_config (js "abcd")) = 27%nat)
  /\ truncateOutput tiny_config (js "abc") = js "abc".
Proof.
  split.
  - apply (proj1 (truncateOutput_boundary tiny_config (js "abcd"))).
    reflexivity.
  - apply (proj1 (proj2 (truncateOutput_boundary tiny_config (js "abc")))).
    discriminate.
Defined.

(* ===================================================================== *)
(** ** Nested arrays *)
(* ===================================================================== *)

(** C9.  An empty array is formatted as the two code units "[]": by
    [formatArray] itself, by the item callback, and so as an item of any
    captured sequence. *)
Theorem formatArray_empty :
  formatArray [] = [91%N; 93%N]
  /\ formatItem (VArr []) = VStr (js "[]")
  /\ forall before after,
       formatOutput (Some (before ++ VArr [] :: after))
       = join LF (List.map elemToString (List.map formatItem before)
                  ++ js "[]" :: List.map elemToString (List.map formatItem after)).
Proof.
  split; [reflexivity | split; [reflexivity|]].
  intros before after. unfold formatOutput.
  destruct (List.length (before ++ VArr [] :: after) =? 0)%nat eqn:Hl.
  - apply Nat.eqb_eq in Hl. rewrite length_app in Hl. simpl in Hl. lia.
  - unfold array_join. rewrite !map_app. reflexivity.
Qed.

(* ===================================================================== *)
(** ** Untranslated messages *)
(* ===================================================================== *)

Lemma translate_loop_no_match (table : list (jsstring * jsstring))
  (message : jsstring) :
  (forall entry, In entry table -> pattern_matches message entry = false) ->
  translate_loop table message = message.
Proof.
  unfold translate_loop. induction table as [|[p t] table IH]; intros H.
  - reflexivity.
  - simpl. pose proof (H (p, t) (or_introl eq_refl)) as Hp.
    unfold pattern_matches in Hp. simpl in Hp. rewrite Hp.
    apply IH. intros entry Hin. apply H. right. exact Hin.
Qed.

(** C7.  A non-empty message that none of the table's patterns matches
    is returned unchanged; an error without a message (the property
    missing, or the empty text a bare [Error] carries) gets the generic
    fallback text. *)
Theorem formatError_identity_or_fallback :
  (forall msg : jsstring,
     msg <> [] ->
     first_matching msg = None ->
     formatError (new_Error msg) = msg)
  /\ formatError {| message := None |}
     = js "コードの実行中にエラーが発生しました"
  /\ formatError (new_Error [])
     = js "コードの実行中にエラーが発生しました".
Proof.
  split; [|split; reflexivity].
  intros msg Hne Hnone.
  destruct msg as [|c msg]; [congruence|].
  change (formatError (new_Error (c :: msg)))
    with (translate_loop errorTranslations (c :: msg)).
  apply translate_loop_no_match. intros entry Hin.
  exact (find_none _ _ Hnone entry Hin).
Qed.

Lemma formatError_identity_or_fallback_witness :
  formatError (new_Error (js "non-numeric argument to binary operator"))
  = js "non-numeric argument to binary operator".
Proof.
  apply (proj1 formatError_identity_or_fallback).
  - discriminate.
  - reflexivity.
Defined.

(* ===================================================================== *)
(** ** Reading a variable *)
(* ===================================================================== *)

(** C10.  When the service is ready, [getVariable] does not throw.  It
    runs [executeCode] on the [toJSON] call for the name and returns
    [null] if that execution throws, if its result is a failure or if its
    output is empty; the value [JSON.parse] gives for the output if
    parsing succeeds; and the output text itself if parsing fails. *)
Theorem getVariable_total
  (E : Engine) (variableName : jsstring) (st : State) :
  ready st = true ->
  exists value st',
    getVariable E variableName st = (Normal value, st')
    /\ snd (executeCode E (variable_code variableName) st) = st'
    /\ (forall v,
          fst (executeCode E (variable_code variableName) st) = Throw v ->
          value = VNull)
    /\ forall r,
         fst (executeCode E (variable_code variableName) st) = Normal r ->
         (success r = false \/ output r = None \/ output r = Some [] ->
          value = VNull)
         /\ (forall out parsed,
               success r = true -> output r = Some out -> out <> [] ->
               JSON_parse E out = Some parsed -> value = parsed)
         /\ (forall out,
               success r = true -> output r = Some out -> out <> [] ->
               JSON_parse E out = None -> value = VStr out).
Proof.
  intros Hr.
  destruct (executeCode E (variable_code variableName) st) as [c st'] eqn:Hx.
  assert (Hg : getVariable E variableName st
               = match c with
                 | Normal r =>
                   (if success r && option_truthy (output r)
                    then match JSON_parse E (or_default (output r) []) with
                         | Some value => M.ret value
                         | None => M.ret (VStr (or_default (output r) []))
                         end
                    else M.ret VNull) st'
                 | Throw _ => (Normal VNull, st')
                 end).
  { unfold getVariable, M.bind at 1, M.gets. rewrite Hr.
    cbv beta iota. unfold negb, M.try_catch, M.bind.
    change (js "jsonlite::toJSON(" ++ variableName ++ js ", auto_unbox = TRUE)")
      with (variable_code variableName).
    rewrite Hx. destruct c as [r|v]; [|reflexivity].
    destruct (success r && option_truthy (output r)); [|reflexivity].
    destruct (JSON_parse E (or_default (output r) [])); reflexivity. }
  destruct c as [r|v].
  - destruct (success r) eqn:Hs; destruct (output r) as [[|c out]|] eqn:Ho;
      simpl in Hg;
      try (exists VNull, st'; split; [exact Hg|]; split; [reflexivity|];
           split; [intros v Hv; discriminate Hv|];
           intros r' Hr'; inversion Hr'; subst r';
           repeat split; intros; congruence).
    destruct (JSON_parse E (c :: out)) as [parsed|] eqn:Hp.
    + exists parsed, st'. split; [exact Hg|]. split; [reflexivity|].
      split; [intros v Hv; discriminate Hv|].
      intros r' Hr'. inversion Hr'. subst r'.
      split; [|split].
      * intros [H|[H|H]]; congruence.
      * intros out' parsed' _ Ho' _ Hp'. congruence.
      * intros out' _ Ho' _ Hp'. congruence.
    + exists (VStr (c :: out)), st'. split; [exact Hg|]. split; [reflexivity|].
      split; [intros v Hv; discriminate Hv|].
      intros r' Hr'. inversion Hr'. subst r'.
      split; [|split].
      * intros [H|[H|H]]; congruence.
      * intros out' parsed' _ Ho' _ Hp'. congruence.
      * intros out' _ Ho' _ Hp'. congruence.
  - exists VNull, st'. split; [exact Hg|]. split; [reflexivity|].
    split; [reflexivity|]. intros r Hr'. discriminate Hr'.
Qed.

Lemma getVariable_total_witness :
  exists value st',
    getVariable demo_engine (js "x") demo_service = (Normal value, st')
    /\ snd (executeCode demo_engine (variable_code (js "x")) demo_service) = st'
    /\ (forall v,
          fst (executeCode demo_engine (variable_code (js "x")) demo_service)
          = Throw v ->
          value = VNull)
    /\ forall r,
         fst (executeCode demo_engine (variable_code (js "x")) demo_service)
         = Normal r ->
         (success r = false \/ output r = None \/ output r = Some [] ->
          value = VNull)
         /\ (forall out parsed,
               success r = true -> output r = Some out -> out <> [] ->
               JSON_parse demo_engine out = Some parsed -> value = parsed)
         /\ (forall out,
               success r = true -> output r = Some out -> out <> [] ->
               JSON_parse demo_engine out = None -> value = VStr out).
Proof.
  apply (getVariable_total demo_engine (js "x") demo_service).
  reflexivity.
Defined.

(* ===================================================================== *)
(** ** Captured stream items *)
(* ===================================================================== *)

Lemma formatItem_captured (k : stream) (c : N) (text : jsstring) :
  elemToString (formatItem (captured (k, c :: text))) = labelled (k, c :: text).
Proof.
  destruct k; reflexivity.
Qed.

(** On captures whose stream items all carry non-empty text,
    [formatOutput] is the labelling rules, line by line. *)
Lemma formatOutput_labelled (items : list (stream * jsstring)) :
  Forall (fun item => snd item <> []) items ->
  formatOutput (Some (List.map captured items)) = labelled_lines items.
Proof.
  intros H. unfold formatOutput, labelled_lines.
  destruct items as [|item items]; [reflexivity|].
  change (List.length (List.map captured (item :: items)) =? 0)%nat with false.
  cbv iota. unfold array_join. rewrite !map_map.
  apply (f_equal (join LF)).
  apply map_ext_in. intros [k text] Hin.
  rewrite Forall_forall in H. specialize (H _ Hin). simpl in H.
  destruct text as [|c text]; [congruence|].
  apply formatItem_captured.
Qed.

(** C5.  The empty capture gives the empty text, but a stdout item whose
    text is empty is not rendered verbatim: the truthiness test on its
    data fails and the item falls through to the object branch, which
    prints its JSON form over four lines.  The labelling rules ask for an
    empty line there. *)
Theorem formatOutput_empty_stdout_line :
  formatOutput (Some []) = []
  /\ formatOutput (Some (List.map captured
                           [(Stdout, js "a"); (Stdout, []); (Stdout, js "b")]))
     = js "a" ++ LF ++ empty_stdout_dump ++ LF ++ js "b"
  /\ labelled_lines [(Stdout, js "a"); (Stdout, []); (Stdout, js "b")]
     = js "a" ++ LF ++ LF ++ js "b"
  /\ formatOutput (Some (List.map captured
                           [(Stdout, js "a"); (Stdout, []); (Stdout, js "b")]))
     <> labelled_lines [(Stdout, js "a"); (Stdout, []); (Stdout, js "b")].
Proof.
  split; [reflexivity|]. split; [vm_compute; reflexivity|].
  split; [vm_compute; reflexivity|].
  vm_compute. discriminate.
Qed.

(* ===================================================================== *)
(** ** Matching and replacing *)
(* ===================================================================== *)

Section RegExpFacts.

Import RegExp.

Lemma canonicalize_plain (c x : N) :
  is_plain c = true -> canonicalize x = canonicalize c -> is_plain x = true.
Proof.
  unfold is_plain, canonicalize. intros Hc Hx.
  destruct (N.leb_spec 97 x), (N.leb_spec x 122), (N.leb_spec 97 c),
    (N.leb_spec c 122), (N.leb_spec 65 c), (N.leb_spec c 90),
    (N.eqb_spec c 32), (N.leb_spec 65 x), (N.leb_spec x 90),
    (N.eqb_spec x 32);
    simpl in *; try reflexivity; try discriminate; lia.
Qed.

(** A literal pattern consumes exactly its own length, and only plain
    characters. *)
Lemma match_here_literal (re : regex) :
  forallb plain_term re = true ->
  forall s n,
    match_here re s = Some n ->
    n = List.length re
    /\ (n <= List.length s)%nat
    /\ forallb is_plain (firstn n s) = true.
Proof.
  induction re as [|t re IH]; intros Hre s n Hm.
  - simpl in Hm. inversion Hm. simpl. repeat split. lia.
  - simpl in Hre. apply andb_true_iff in Hre. destruct Hre as [Ht Hre].
    destruct t as [[c|]|a]; try discriminate. simpl in Ht.
    simpl in Hm. destruct s as [|x s]; [discriminate|].
    destruct (canonicalize x =? canonicalize c)%N eqn:Hx; [|discriminate].
    apply N.eqb_eq in Hx.
    destruct (match_here re s) as [n'|] eqn:Hn'; [|discriminate].
    simpl in Hm. inversion Hm. subst n.
    destruct (IH Hre s n' Hn') as [Hlen [Hle Hall]].
    simpl. rewrite Hall, (canonicalize_plain c x Ht Hx).
    repeat split; lia.
Qed.

(** [exec] finds the leftmost position at which the pattern matches. *)
Lemma exec_leftmost (re : regex) (s : jsstring) :
  forall i n,
    exec re s = Some (i, n) ->
    match_here re (skipn i s) = Some n
    /\ (i <= List.length s)%nat
    /\ forall j, (j < i)%nat -> match_here re (skipn j s) = None.
Proof.
  induction s as [|x s IH]; intros i n H.
  - simpl in H. destruct (match_here re []) as [m|] eqn:Hm; [|discriminate].
    inversion H. subst. simpl. repeat split; [exact Hm | lia | lia].
  - simpl in H. destruct (match_here re (x :: s)) as [m|] eqn:Hm.
    + inversion H. subst. simpl. repeat split; [exact Hm | lia | lia].
    + destruct (exec re s) as [[i' n']|] eqn:He; [|discriminate].
      inversion H. subst. destruct (IH i' n eq_refl) as [H1 [H2 H3]].
      simpl. split; [exact H1|]. split; [lia|].
      intros j Hj. destruct j as [|j]; [exact Hm|].
      simpl. apply H3. lia.
Qed.

Lemma split_at_match (s : jsstring) (i n : nat) :
  s = firstn i s ++ firstn n (skipn i s) ++ skipn (i + n) s.
Proof.
  rewrite (Nat.add_comm i n), <- skipn_skipn, !firstn_skipn. reflexivity.
Qed.

End RegExpFacts.

(** A phrase starting a text that also reads [pre ++ mid ++ post], with
    [mid] plain and non-empty, lies inside [pre]. *)
Lemma phrase_before_plain (t : jsstring) :
  forallb (fun c => negb (is_plain c)) t = true ->
  forall pre b mid post,
    t ++ b = pre ++ mid ++ post ->
    mid <> [] -> forallb is_plain mid = true ->
    exists x, pre = t ++ x.
Proof.
  induction t as [|c t IH]; intros Ht pre b mid post Heq Hne Hmid.
  - exists pre. reflexivity.
  - simpl in Ht. apply andb_true_iff in Ht. destruct Ht as [Hc Ht].
    destruct pre as [|y pre].
    + destruct mid as [|m mid]; [congruence|].
      simpl in Heq. inversion Heq. subst m.
      simpl in Hmid. apply andb_true_iff in Hmid. destruct Hmid as [Hm _].
      rewrite Hm in Hc. discriminate.
    + simpl in Heq. inversion Heq. subst y.
      destruct (IH Ht pre b mid post H1 Hne Hmid) as [x Hx].
      exists x. rewrite Hx. reflexivity.
Qed.

(** A plain run starting a text that also reads [a ++ t ++ b], with [t]
    a phrase, lies inside [a]. *)
Lemma plain_before_phrase (mid : jsstring) :
  forallb is_plain mid = true ->
  forall a t b post,
    a ++ t ++ b = mid ++ post ->
    t <> [] -> forallb (fun c => negb (is_plain c)) t = true ->
    exists x, a = mid ++ x.
Proof.
  induction mid as [|m mid IH]; intros Hmid a t b post Heq Hne Ht.
  - exists a. reflexivity.
  - simpl in Hmid. apply andb_true_iff in Hmid. destruct Hmid as [Hm Hmid].
    destruct a as [|y a].
    + destruct t as [|c t]; [congruence|].
      simpl in Heq. inversion Heq. subst c.
      simpl in Ht. apply andb_true_iff in Ht. destruct Ht as [Hc _].
      rewrite Hm in Hc. discriminate.
    + simpl in Heq. inversion Heq. subst y.
      destruct (IH Hmid a t b post H1 Hne Ht) as [x Hx].
      exists x. rewrite Hx. reflexivity.
Qed.

(** An occurrence of a phrase and a plain run in the same text do not
    overlap: the run ends before the phrase or starts after it. *)
Lemma phrase_apart (a : jsstring) :
  forall t b pre mid post,
    a ++ t ++ b = pre ++ mid ++ post ->
    t <> [] -> forallb (fun c => negb (is_plain c)) t = true ->
    mid <> [] -> forallb is_plain mid = true ->
    (exists x, a = pre ++ mid ++ x /\ post = x ++ t ++ b)
    \/ (exists x, pre = a ++ t ++ x /\ b = x ++ mid ++ post).
Proof.
  induction a as [|y a IH]; intros t b pre mid post Heq Htne Ht Hmne Hmid.
  - right. simpl in Heq.
    destruct (phrase_before_plain t Ht pre b mid post Heq Hmne Hmid) as [x Hx].
    exists x. split; [exact Hx|].
    subst pre. rewrite <- app_assoc in Heq.
    apply app_inv_head in Heq. exact Heq.
  - destruct pre as [|z pre].
    + left. simpl in Heq.
      destruct (plain_before_phrase mid Hmid (y :: a) t b post Heq Htne Ht)
        as [x Hx].
      exists x. split; [exact Hx|].
      change ((y :: a) ++ t ++ b = mid ++ post) in Heq.
      rewrite Hx, <- app_assoc in Heq.
      apply app_inv_head in Heq. symmetry. exact Heq.
    + simpl in Heq. inversion Heq. subst z.
      destruct (IH t b pre mid post H1 Htne Ht Hmne Hmid)
        as [[x [Hx1 Hx2]]|[x [Hx1 Hx2]]].
      * left. exists x. split; [rewrite Hx1; reflexivity | exact Hx2].
      * right. exists x. split; [rewrite Hx1; reflexivity | exact Hx2].
Qed.

Lemma nonempty_of_phrase (t : jsstring) :
  phrase t = true ->
  t <> [] /\ forallb (fun c => negb (is_plain c)) t = true.
Proof.
  unfold phrase. intros H. apply andb_true_iff in H. destruct H as [H1 H2].
  split; [|exact H2]. destruct t; [discriminate | congruence].
Qed.

(** Replacing the match of a literal plain pattern keeps every phrase
    the text holds. *)
Lemma translate_step_keeps_phrase
  (msg : jsstring) (entry : jsstring * jsstring) (t : jsstring) :
  literal_plain (RegExp.parse (fst entry)) = true ->
  phrase t = true ->
  contains msg t ->
  contains (translate_step msg entry) t.
Proof.
  intros Hlit Ht [a [b Hab]]. destruct entry as [p tr]. simpl in Hlit.
  unfold translate_step, RegExp.test, RegExp.replace.
  destruct (RegExp.exec (RegExp.parse p) msg) as [[i n]|] eqn:He;
    [|exists a, b; exact Hab].
  unfold literal_plain in Hlit. apply andb_true_iff in Hlit.
  destruct Hlit as [Hlen Hplain].
  destruct (exec_leftmost _ _ _ _ He) as [Hm [Hi _]].
  destruct (match_here_literal _ Hplain _ _ Hm) as [Hn [Hle Hall]].
  destruct (nonempty_of_phrase t Ht) as [Htne Htall].
  assert (Hmne : firstn n (skipn i msg) <> []).
  { intros Hnil. apply (f_equal (@List.length N)) in Hnil.
    rewrite firstn_length_le in Hnil by exact Hle. simpl in Hnil.
    subst n. rewrite Hnil in Hlen. discriminate. }
  pose proof (split_at_match msg i n) as Hsplit.
  rewrite Hab in Hsplit at 1.
  destruct (phrase_apart a t b _ _ _ Hsplit Htne Htall Hmne Hall)
    as [[x [Hx1 Hx2]]|[x [Hx1 Hx2]]].
  - exists (firstn i msg ++ tr ++ x), b.
    rewrite Hx2, <- !app_assoc. reflexivity.
  - exists a, (x ++ tr ++ skipn (i + n) msg).
    rewrite Hx1, <- !app_assoc. reflexivity.
Qed.

Lemma translate_loop_keeps_phrase (table : list (jsstring * jsstring))
  (t : jsstring) :
  (forall entry, In entry table ->
                 literal_plain (RegExp.parse (fst entry)) = true) ->
  phrase t = true ->
  forall msg, contains msg t -> contains (translate_loop table msg) t.
Proof.
  unfold translate_loop.
  induction table as [|entry table IH]; intros Hlit Ht msg Hc.
  - exact Hc.
  - simpl. apply IH.
    + intros e He. apply Hlit. right. exact He.
    + exact Ht.
    + apply translate_step_keeps_phrase;
        [apply Hlit; left; reflexivity | exact Ht | exact Hc].
Qed.

Lemma find_split {A} (f : A -> bool) (l : list A) (x : A) :
  find f l = Some x ->
  exists before after,
    l = before ++ x :: after
    /\ (forall y, In y before -> f y = false)
    /\ f x = true.
Proof.
  induction l as [|a l IH]; intros H; [discriminate|].
  simpl in H. destruct (f a) eqn:Hfa.
  - inversion H. subst. exists [], l. repeat split; [|exact Hfa].
    intros y [].
  - destruct (IH H) as [before [after [Hl [Hb Hx]]]].
    exists (a :: before), after. split; [rewrite Hl; reflexivity|].
    split; [|exact Hx].
    intros y [Hy|Hy]; [subst; exact Hfa | apply Hb; exact Hy].
Qed.

(** Every entry after the first is a literal plain pattern, and every
    replacement of the table is a phrase. *)
Lemma table_shape :
  forallb (fun entry => literal_plain (RegExp.parse (fst entry)))
          (tl errorTranslations) = true
  /\ forallb (fun entry => phrase (snd entry)) errorTranslations = true.
Proof.
  split; vm_compute; reflexivity.
Qed.

Lemma later_entries_in_tail {A} (l before after : list A) (x : A) :
  l = before ++ x :: after -> forall y, In y after -> In y (tl l).
Proof.
  intros Hl y Hy. subst l. destruct before as [|b before]; simpl.
  - exact Hy.
  - apply in_or_app. right. right. exact Hy.
Qed.

Lemma translate_loop_app (before after : list (jsstring * jsstring))
  (msg : jsstring) :
  translate_loop (before ++ after) msg
  = translate_loop after (translate_loop before msg).
Proof.
  unfold translate_loop. apply fold_left_app.
Qed.

(* ===================================================================== *)
(** ** Translated messages *)
(* ===================================================================== *)

(** C4, as amended.  For a message that some table pattern matches, let
    the first such entry be [(pattern, translation)].  The entries before
    it leave the message alone; the leftmost match of [pattern] (found
    ignoring case) is replaced by [translation] with the text before and
    after it kept; the loop then goes on with the later entries on that
    text, each later pattern that matches being replaced at its own
    leftmost match.  The returned text holds [translation]. *)
Theorem formatError_first_match
  (msg pattern translation : jsstring) :
  first_matching msg = Some (pattern, translation) ->
  exists i n before after,
    errorTranslations = before ++ (pattern, translation) :: after
    /\ (forall entry, In entry before -> pattern_matches msg entry = false)
    /\ RegExp.exec (RegExp.parse pattern) msg = Some (i, n)
    /\ RegExp.match_here (RegExp.parse pattern) (skipn i msg) = Some n
    /\ (forall j, (j < i)%nat ->
                  RegExp.match_here (RegExp.parse pattern) (skipn j msg) = None)
    /\ translate msg
       = translate_loop after
           (firstn i msg ++ translation ++ skipn (i + n) msg)
    /\ contains (translate msg) translation.
Proof.
  intros Hfirst.
  destruct msg as [|c msg]; [vm_compute in Hfirst; discriminate|].
  destruct (find_split _ _ _ Hfirst) as [before [after [Hl [Hbefore Hhit]]]].
  unfold pattern_matches, RegExp.test in Hhit. simpl fst in Hhit.
  destruct (RegExp.exec (RegExp.parse pattern) (c :: msg)) as [[i n]|] eqn:He;
    [|discriminate].
  destruct (exec_leftmost _ _ _ _ He) as [Hm [_ Hleft]].
  assert (Heq : translate (c :: msg)
                = translate_loop after
                    (firstn i (c :: msg) ++ translation
                     ++ skipn (i + n) (c :: msg))).
  { change (translate (c :: msg))
      with (translate_loop errorTranslations (c :: msg)).
    rewrite Hl, translate_loop_app, (translate_loop_no_match before _ Hbefore).
    unfold translate_loop at 1. simpl fold_left.
    unfold RegExp.test, RegExp.replace.
    rewrite He. reflexivity. }
  exists i, n, before, after.
  split; [exact Hl|]. split; [exact Hbefore|]. split; [reflexivity|].
  split; [exact Hm|]. split; [exact Hleft|]. split; [exact Heq|].
  rewrite Heq. destruct table_shape as [Hlit Hphr].
  rewrite forallb_forall in Hlit, Hphr.
  apply translate_loop_keeps_phrase.
  - intros entry Hin. apply Hlit.
    exact (later_entries_in_tail _ _ _ _ Hl entry Hin).
  - apply (Hphr (pattern, translation)).
    rewrite Hl. apply in_or_app. right. left. reflexivity.
  - exists (firstn i (c :: msg)), (skipn (i + n) (c :: msg)). reflexivity.
Qed.

Lemma formatError_first_match_witness :
  exists i n before after,
    errorTranslations
    = before ++ (js "object .* not found", js "オブジェクトが見つかりません")
             :: after
    /\ (forall entry,
          In entry before ->
          pattern_matches (js "Error in f(): object 'x' not found") entry
          = false)
    /\ RegExp.exec (RegExp.parse (js "object .* not found"))
         (js "Error in f(): object 'x' not found") = Some (i, n)
    /\ RegExp.match_here (RegExp.parse (js "object .* not found"))
         (skipn i (js "Error in f(): object 'x' not found")) = Some n
    /\ (forall j, (j < i)%nat ->
          RegExp.match_here (RegExp.parse (js "object .* not found"))
            (skipn j (js "Error in f(): object 'x' not found")) = None)
    /\ translate (js "Error in f(): object 'x' not found")
       = translate_loop after
           (firstn i (js "Error in f(): object 'x' not found")
            ++ js "オブジェクトが見つかりません"
            ++ skipn (i + n) (js "Error in f(): object 'x' not found"))
    /\ contains (translate (js "Error in f(): object 'x' not found"))
         (js "オブジェクトが見つかりません").
Proof.
  apply (formatError_first_match
           (js "Error in f(): object 'x' not found")
           (js "object .* not found")
           (js "オブジェクトが見つかりません")).
  vm_compute. reflexivity.
Defined.

(** C4, as stated, fails: only the first occurrence of the pattern is
    replaced, so a message with two occurrences keeps the second one. *)
Lemma first_pattern_only_counterexample :
  ~ first_pattern_only (js "invalid index: invalid type").
Proof.
  intros H.
  assert (Hf : first_matching (js "invalid index: invalid type")
               = Some (js "invalid", js "無効な"))
    by (vm_compute; reflexivity).
  assert (He : RegExp.exec (RegExp.parse (js "invalid"))
                 (js "invalid index: invalid type") = Some (0%nat, 7%nat))
    by (vm_compute; reflexivity).
  destruct (H _ _ _ _ Hf He) as [_ [_ Hgone]].
  vm_compute in Hgone. discriminate.
Qed.

(** Later table entries are applied as well: a message that two
    patterns match has both replaced. *)
Example formatError_two_patterns :
  translate (js "Error in f(): object 'x' not found")
  = js "エラー: f(): オブジェクトが見つかりません".
Proof. vm_compute. reflexivity. Qed.

(* ===================================================================== *)
(** ** Life cycle of the service *)
(* ===================================================================== *)

(** X1.  When the engine starts and the shelter is created, [initialize]
    returns normally and the service is ready with its engine and
    shelter, whatever the set-up call did: a failure of the set-up code
    is swallowed.  The set-up code is the one call recorded. *)
Theorem initialize_success (E : Engine) (st : State) :
  webR_init E = Normal tt ->
  webR_Shelter E = Normal tt ->
  initialize E st = (Normal tt, initialized st).
Proof.
  intros Hi Hs.
  unfold initialize, M.try_catch, M.bind, set_webR, set_shelter, set_ready,
    setupEnvironment, M.try_catch, M.bind, shelter_captureR, M.modify, M.ret.
  rewrite Hi, Hs. simpl.
  destruct (captureR E (calls st) setup_code None); reflexivity.
Qed.

Lemma initialize_success_witness :
  initialize setup_failing_engine fresh_service
  = (Normal tt, initialized fresh_service).
Proof.
  apply (initialize_success setup_failing_engine fresh_service); reflexivity.
Defined.

(** X2.  When the engine start-up or the shelter creation fails with
    [e], [initialize] throws a new error whose message is the fixed
    prefix followed by [e]'s message; the service is left not ready, with
    the shelter, the call log and the configuration it had. *)
Theorem initialize_failure (E : Engine) (st : State) (e : JsError) :
  webR_init E = Throw e
  \/ (webR_init E = Normal tt /\ webR_Shelter E = Throw e) ->
  exists st',
    initialize E st
    = (Throw (new_Error (js "WebR初期化に失敗しました: " ++ message_text e)), st')
    /\ ready st' = false
    /\ shelter st' = shelter st
    /\ calls st' = calls st
    /\ config st' = config st.
Proof.
  intros H.
  unfold initialize, M.try_catch, M.bind, set_webR, set_shelter, set_ready,
    M.modify, M.throw, read_message, M.ret.
  destruct H as [Hi|[Hi Hs]].
  - rewrite Hi. simpl. eexists. split; [reflexivity|]. repeat split.
  - rewrite Hi, Hs. simpl. eexists. split; [reflexivity|]. repeat split.
Qed.

Lemma initialize_failure_witness :
  exists st',
    initialize broken_engine fresh_service
    = (Throw (new_Error (js "WebR初期化に失敗しました: "
                         ++ message_text (new_Error (js "network")))), st')
    /\ ready st' = false
    /\ shelter st' = shelter fresh_service
    /\ calls st' = calls fresh_service
    /\ config st' = config fresh_service.
Proof.
  apply (initialize_failure broken_engine fresh_service
           (new_Error (js "network"))).
  left. reflexivity.
Defined.

Lemma same_service_refl (st : State) : same_service st st.
Proof. repeat split. Qed.

Section Frames.

Variable E : Engine.

(** The final state of [executeCode]: untouched when a guard fires,
    otherwise the state after an execution. *)
Lemma executeCode_final_state (code : jsstring) (st : State) :
  snd (executeCode E code st) = st
  \/ (ready st = true /\ is_blank code = false
      /\ snd (executeCode E code st)
         = after_execution (has_shelter st) code st).
Proof.
  destruct (ready st) eqn:Hr.
  - destruct (is_blank code) eqn:Hb.
    + left. rewrite executeCode_blank by assumption. reflexivity.
    + right. split; [reflexivity|]. split; [reflexivity|].
      destruct (shelter st) as [sh|] eqn:Hs.
      * rewrite executeCode_engine by (try assumption; congruence).
        unfold has_shelter. rewrite Hs. reflexivity.
      * rewrite executeCode_null_shelter by assumption.
        unfold has_shelter. rewrite Hs. reflexivity.
  - left. rewrite executeCode_not_ready by assumption. reflexivity.
Qed.

Lemma executeCode_same_service (code : jsstring) (st : State) :
  same_service st (snd (executeCode E code st)).
Proof.
  destruct (executeCode_final_state code st) as [H|[_ [_ H]]]; rewrite H.
  - apply same_service_refl.
  - repeat split.
Qed.

(** A method that only guards on readiness and then wraps one
    [executeCode] call ends in the state that call ends in. *)
Lemma wrapped_call_state {A} (code : jsstring)
  (k : ExecutionResult -> M.t A) (fallback : thrown -> M.t A) (st : State) :
  (forall r s, snd (k r s) = s) ->
  (forall e s, snd (fallback e s) = s) ->
  snd ((M.bind (M.gets ready) (fun is_ready =>
          if negb is_ready then M.throw not_initialized
          else M.try_catch (M.bind (executeCode E code) k) fallback)) st)
  = snd (executeCode E code st).
Proof.
  intros Hk Hf. unfold M.bind at 1, M.gets.
  destruct (ready st) eqn:Hr; simpl.
  - unfold M.try_catch, M.bind.
    destruct (executeCode E code st) as [[r|e] s] eqn:Hx; simpl.
    + specialize (Hk r s). destruct (k r s) as [[a|e'] s'] eqn:Hkr;
        simpl in *; [exact Hk|].
      rewrite Hf. exact Hk.
    + apply Hf.
  - rewrite executeCode_not_ready by exact Hr. reflexivity.
Qed.

Lemma loadData_state (name : jsstring) (data : jsval) (st : State) :
  snd (loadData E name data st)
  = snd (executeCode E (loadData_code name data) st).
Proof.
  unfold loadData. apply wrapped_call_state; reflexivity.
Qed.

Lemma installPackage_state (name : jsstring) (st : State) :
  snd (installPackage E name st)
  = snd (executeCode E (installPackage_code name) st).
Proof.
  unfold installPackage. apply wrapped_call_state; reflexivity.
Qed.

Lemma getVariable_state (name : jsstring) (st : State) :
  snd (getVariable E name st)
  = snd (executeCode E (variable_code name) st).
Proof.
  unfold getVariable.
  change (js "jsonlite::toJSON(" ++ name ++ js ", auto_unbox = TRUE)")
    with (variable_code name).
  apply wrapped_call_state; [|reflexivity].
  intros r s.
  destruct (success r && option_truthy (output r)); [|reflexivity].
  destruct (JSON_parse E (or_default (output r) [])); reflexivity.
Qed.

Lemma initialize_cases (st : State) :
  snd (initialize E st) = initialized st
  \/ (ready (snd (initialize E st)) = false
      /\ currentExecution (snd (initialize E st)) = currentExecution st).
Proof.
  unfold initialize, M.try_catch, M.bind, set_webR, set_shelter, set_ready,
    setupEnvironment, M.try_catch, M.bind, shelter_captureR, M.modify, M.ret,
    M.throw, read_message.
  destruct (webR_init E) as [[]|v]; simpl.
  - destruct (webR_Shelter E) as [[]|v]; simpl.
    + left. destruct (captureR E (calls st) setup_code None); reflexivity.
    + right. destruct v; split; reflexivity.
  - right. destruct v; split; reflexivity.
Qed.

Lemma destroy_result (st : State) : destroy st = (Normal tt, destroyed st).
Proof.
  unfold destroy, M.try_catch, M.bind, cancelExecution, M.gets,
    set_currentExecution, set_shelter, set_webR, set_ready, M.modify, M.ret.
  destruct st as [w sh r cfg cur cs n]; simpl.
  destruct cur; destruct sh; reflexivity.
Qed.

(** The invariant of the service, by induction on how the state was
    reached. *)
Lemma consistent_of_reachable (st : State) :
  reachable E st -> consistent st.
Proof.
  assert (Hexec : forall s code,
             consistent s -> consistent (snd (executeCode E code s))).
  { intros s code [Hs1 Hs2].
    destruct (executeCode_final_state code s) as [H|[Hr [_ H]]]; rewrite H.
    - split; assumption.
    - split; [exact Hs1 | reflexivity]. }
  induction 1 as [given|s _ IH|s code _ IH|s _ IH|s _ IH
                  |s name data _ IH|s name _ IH|s name _ IH].
  - split; [discriminate | reflexivity].
  - destruct IH as [IH1 IH2].
    destruct (initialize_cases s) as [H|[H1 H2]].
    + rewrite H. split; [intros _; split; reflexivity | exact IH2].
    + split; [rewrite H1; discriminate | rewrite H2; exact IH2].
  - apply Hexec. exact IH.
  - destruct IH as [IH1 IH2]. unfold cancelExecution, M.bind, M.gets.
    rewrite IH2. simpl. split; assumption.
  - rewrite destroy_result. split; [discriminate | reflexivity].
  - rewrite loadData_state. apply Hexec. exact IH.
  - rewrite installPackage_state. apply Hexec. exact IH.
  - rewrite getVariable_state. apply Hexec. exact IH.
Qed.

(** X3.  Between calls a service is consistent: whenever it is ready it
    holds the engine and the shelter, and it keeps no cancellation handle.
    This holds after construction and after any sequence of [initialize],
    [executeCode], [cancelExecution], [destroy], [loadData],
    [installPackage] and [getVariable], whatever the engine does. *)
Theorem reachable_consistent (st : State) :
  reachable E st -> consistent st.
Proof.
  intros Hreach.
  destruct (consistent_of_reachable st Hreach) as [Hready Hhandle].
  split.
  - intros Hr. exact (Hready Hr).
  - exact Hhandle.
Qed.


(** X5.  [cancelExecution] is a no-op on a service that is between
    calls: the handle an execution sets is cleared before [executeCode]
    returns. *)
Theorem cancelExecution_noop (st : State) :
  reachable E st ->
  cancelExecution st = (Normal tt, st).
Proof.
  intros Hreach. destruct (consistent_of_reachable st Hreach) as [_ Hc].
  unfold cancelExecution, M.bind, M.gets. rewrite Hc. reflexivity.
Qed.

End Frames.

Lemma reachable_consistent_witness :
  consistent (snd (executeCode demo_engine (js "stop()") demo_service)).
Proof.
  apply (reachable_consistent demo_engine).
  apply reach_executeCode. apply reach_initialize. apply reach_constructor.
Defined.


Lemma cancelExecution_noop_witness :
  cancelExecution (snd (executeCode demo_engine (js "plot(1)") demo_service))
  = (Normal tt, snd (executeCode demo_engine (js "plot(1)") demo_service)).
Proof.
  apply (cancelExecution_noop demo_engine).
  apply reach_executeCode. apply reach_initialize. apply reach_constructor.
Defined.

(* ===================================================================== *)
(** ** Results seen by the caller *)
(* ===================================================================== *)

Lemma Math_round_nonneg (x : Q) : (0 <= x)%Q -> (0 <= Math_round x)%Z.
Proof.
  intros Hx. unfold Math_round.
  change 0%Z with (Qfloor 0). apply Qfloor_resp_le.
  apply Qle_trans with x; [exact Hx|].
  rewrite <- (Qplus_0_r x) at 1. apply Qplus_le_r. discriminate.
Qed.

Lemma round_half_even_nonneg (a b : Z) :
  (0 <= a)%Z -> (0 < b)%Z -> (0 <= Double.round_half_even a b)%Z.
Proof.
  intros Ha Hb. unfold Double.round_half_even.
  assert (0 <= a / b)%Z by (apply Z.div_pos; lia).
  destruct (2 * (a mod b) <? b)%Z; [lia|].
  destruct (b <? 2 * (a mod b))%Z; [lia|].
  destruct (Z.even (a / b)); lia.
Qed.

Lemma round_positive_nonneg (n : Z) (d : positive) :
  (0 < n)%Z -> (0 <= Double.round_positive n d)%Q.
Proof.
  intros Hn. unfold Double.round_positive.
  set (e := Z.max (Double.binade n d - 52) (-1074)).
  destruct (0 <=? e)%Z eqn:He.
  - apply Z.leb_le in He. change 0%Q with (inject_Z 0). rewrite <- Zle_Qle.
    apply Z.mul_nonneg_nonneg; [|apply Z.pow_nonneg; lia].
    apply round_half_even_nonneg; [lia|].
    apply Z.mul_pos_pos; [lia | apply Z.pow_pos_nonneg; lia].
  - unfold Qle. simpl. rewrite Z.mul_1_r.
    apply round_half_even_nonneg; [|lia].
    apply Z.mul_nonneg_nonneg; [lia | apply Z.pow_nonneg; lia].
Qed.

(** Rounding to a number keeps the sign of a non-negative value. *)
Lemma Double_round_nonneg (q : Q) : (0 <= q)%Q -> (0 <= Double.round q)%Q.
Proof.
  intros Hq. unfold Double.round.
  destruct q as [n d]. simpl. unfold Qle in Hq. simpl in Hq.
  destruct n as [|n|n].
  - apply Qle_refl.
  - apply round_positive_nonneg. lia.
  - lia.
Qed.

(** X6.  With a clock that never runs backwards, every execution time
    [executeCode] reports is a non-negative integer. *)
Theorem executionTime_nonneg
  (E : Engine) (code : jsstring) (st st' : State) (r : ExecutionResult)
  (t : Z) :
  (forall n, (performance_clock E n <= performance_clock E (S n))%Q) ->
  executeCode E code st = (Normal r, st') ->
  executionTime r = Some t ->
  (0 <= t)%Z.
Proof.
  intros Hmono H Ht.
  assert (Hm : (0 <= measured E st)%Z).
  { unfold measured, Double.minus. apply Math_round_nonneg.
    apply Double_round_nonneg.
    unfold Qminus. rewrite <- Qle_minus_iff. apply Hmono. }
  destruct (executeCode_cases E code st)
    as [[_ Hx]|[[_ Hx]|[[_ Hx]|[[_ [e [Hc Hx]]]|[[_ [raw [Hc Hx]]]
                                               |[_ [w [Hw [Hc Hx]]]]]]]]];
    rewrite Hx in H; inversion H; subst; clear H; simpl in Ht;
    try discriminate; inversion Ht; subst; exact Hm.
Qed.

Lemma executionTime_nonneg_witness : (0 <= 4)%Z.
Proof.
  apply (executionTime_nonneg demo_engine (js "stop()") demo_service
           (after_execution true (js "stop()") demo_service)
           (failure_result demo_engine
              (new_Error (js "Error in stop(): invalid call")) demo_service)
           4%Z).
  - intros n. unfold demo_engine, performance_clock.
    apply Qmult_le_compat_r; [|discriminate].
    rewrite <- Zle_Qle. lia.
  - reflexivity.
  - reflexivity.
Defined.

Lemma truncateOutput_short (cfg : ConfigOptions) (text : jsstring) :
  (N.of_nat (List.length text) <= maxOutputLength cfg)%N ->
  truncateOutput cfg text = text.
Proof.
  intros Hle. unfold truncateOutput.
  destruct (N.leb_spec (N.of_nat (List.length text)) (maxOutputLength cfg));
    [reflexivity | lia].
Qed.

Lemma truncateOutput_long (cfg : ConfigOptions) (text : jsstring) :
  (maxOutputLength cfg < N.of_nat (List.length text))%N ->
  truncateOutput cfg text
  = firstn (N.to_nat (maxOutputLength cfg)) text ++ omission_suffix.
Proof.
  intros Hlt. unfold truncateOutput.
  destruct (N.leb_spec (N.of_nat (List.length text)) (maxOutputLength cfg));
    [lia|].
  rewrite substring_prefix by lia. reflexivity.
Qed.

(** X7.  [truncateOutput] bounds its result by the maximum plus the
    suffix, keeps the first [maxOutputLength] code units of the text, and
    truncating a second time changes nothing. *)
Theorem truncateOutput_bounded_idempotent
  (cfg : ConfigOptions) (text : jsstring) :
  (List.length (truncateOutput cfg text)
   <= N.to_nat (maxOutputLength cfg) + List.length omission_suffix)%nat
  /\ firstn (N.to_nat (maxOutputLength cfg)) (truncateOutput cfg text)
     = firstn (N.to_nat (maxOutputLength cfg)) text
  /\ truncateOutput cfg (truncateOutput cfg text) = truncateOutput cfg text.
Proof.
  destruct (N.le_gt_cases (N.of_nat (List.length text)) (maxOutputLength cfg))
    as [Hle|Hgt].
  - rewrite !(truncateOutput_short cfg text Hle).
    split; [lia|]. split; reflexivity.
  - pose proof (truncateOutput_long cfg text Hgt) as Heq.
    assert (Hfl : List.length (firstn (N.to_nat (maxOutputLength cfg)) text)
                  = N.to_nat (maxOutputLength cfg))
      by (apply firstn_length_le; lia).
    assert (Hpre : firstn (N.to_nat (maxOutputLength cfg))
                     (truncateOutput cfg text)
                   = firstn (N.to_nat (maxOutputLength cfg)) text).
    { rewrite Heq, firstn_app, Hfl, Nat.sub_diag. simpl.
      rewrite app_nil_r. apply firstn_all2. lia. }
    assert (Hlen : List.length (truncateOutput cfg text)
                   = (N.to_nat (maxOutputLength cfg)
                      + List.length omission_suffix)%nat)
      by (rewrite Heq, length_app, Hfl; reflexivity).
    split; [lia|]. split; [exact Hpre|].
    rewrite (truncateOutput_long cfg (truncateOutput cfg text)).
    + rewrite Hpre. symmetry. exact Heq.
    + rewrite Hlen. change (List.length omission_suffix) with 24%nat. lia.
Qed.

(** Replacing a match by a table phrase cannot make a message empty. *)
Lemma translate_loop_nonempty (table : list (jsstring * jsstring)) :
  (forall entry, In entry table -> snd entry <> []) ->
  forall msg, msg <> [] -> translate_loop table msg <> [].
Proof.
  unfold translate_loop.
  induction table as [|[p tr] table IH]; intros Htab msg Hne.
  - exact Hne.
  - simpl. apply IH.
    + intros entry Hin. apply Htab. right. exact Hin.
    + unfold RegExp.test, RegExp.replace.
      destruct (RegExp.exec (RegExp.parse p) msg) as [[i n]|]; [|exact Hne].
      pose proof (Htab (p, tr) (or_introl eq_refl)) as Htr. simpl in Htr.
      intros Hnil. apply app_eq_nil in Hnil. destruct Hnil as [_ Hnil].
      apply app_eq_nil in Hnil. destruct Hnil as [Hnil _]. contradiction.
Qed.

Lemma formatError_nonempty (e : JsError) : formatError e <> [].
Proof.
  unfold formatError. destruct (message e) as [[|c msg]|].
  - vm_compute. discriminate.
  - apply translate_loop_nonempty; [|discriminate].
    intros entry Hin. destruct table_shape as [_ Hphr].
    rewrite forallb_forall in Hphr. specialize (Hphr entry Hin).
    apply nonempty_of_phrase in Hphr. tauto.
  - vm_compute. discriminate.
Qed.

(** X8.  A failed result of [executeCode] always carries a non-empty
    error text, and a successful one never carries an error: a caller's
    fallback for a missing error text is never needed. *)
Theorem failure_has_error_text
  (E : Engine) (code : jsstring) (st st' : State) (r : ExecutionResult) :
  executeCode E code st = (Normal r, st') ->
  if success r
  then error r = None
  else exists text, error r = Some text /\ text <> [].
Proof.
  intros H.
  destruct (executeCode_cases E code st)
    as [[_ Hx]|[[_ Hx]|[[_ Hx]|[[_ [e [Hc Hx]]]|[[_ [raw [Hc Hx]]]
                                               |[_ [w [Hw [Hc Hx]]]]]]]]];
    rewrite Hx in H; inversion H; subst; clear H; simpl.
  - eexists. split; [reflexivity|]. vm_compute. discriminate.
  - eexists. split; [reflexivity|]. apply formatError_nonempty.
  - eexists. split; [reflexivity|]. apply formatError_nonempty.
  - reflexivity.
Qed.

Lemma failure_has_error_text_witness :
  exists text,
    error (failure_result demo_engine
             (new_Error (js "Error in stop(): invalid call")) demo_service)
    = Some text /\ text <> [].
Proof.
  apply (failure_has_error_text demo_engine (js "stop()") demo_service
           (after_execution true (js "stop()") demo_service)
           (failure_result demo_engine
              (new_Error (js "Error in stop(): invalid call")) demo_service)).
  reflexivity.
Defined.

(* ===================================================================== *)
(** ** Loading data and packages *)
(* ===================================================================== *)

Lemma loadData_code_not_blank (name : jsstring) (data : jsval) :
  is_blank (loadData_code name data) = false.
Proof.
  apply is_blank_false. unfold whitespace_only, loadData_code.
  rewrite !forallb_app. reflexivity.
Qed.

Lemma installPackage_code_not_blank (name : jsstring) :
  is_blank (installPackage_code name) = false.
Proof.
  apply is_blank_false. unfold whitespace_only, installPackage_code.
  rewrite !forallb_app. reflexivity.
Qed.

Section Loading.

Variable E : Engine.

(** The flag a wrapper around one engine call returns. *)
Lemma wrapped_call_flag (code : jsstring) (st : State) :
  reachable E st -> ready st = true -> is_blank code = false ->
  M.try_catch
    (M.bind (executeCode E code) (fun result => M.ret (success result)))
    (fun error => M.ret false) st
  = (Normal match captureR E (calls st) code (execute_options st) with
            | Normal _ => true
            | Throw _ => false
            end,
     after_execution true code st).
Proof.
  intros Hreach Hr Hb.
  destruct (consistent_of_reachable E st Hreach) as [Hc _].
  destruct (Hc Hr) as [_ Hs].
  unfold M.try_catch, M.bind.
  rewrite executeCode_engine by (try assumption; congruence).
  unfold engine_outcome.
  destruct (captureR E (calls st) code (execute_options st)) as [raw|[| |e]];
    reflexivity.
Qed.

(** X9.  On a ready service [loadData] does not throw: it sends one
    piece of code to the engine, the [fromJSON] assignment holding the
    JSON text of the data between single quotes, and returns [true]
    exactly when the engine ran it without throwing.  On a service that is
    not ready it throws the not-initialized error and sends nothing. *)
Theorem loadData_outcome (name : jsstring) (data : jsval) (st : State) :
  reachable E st ->
  (ready st = true ->
   loadData E name data st
   = (Normal match captureR E (calls st) (loadData_code name data)
                     (execute_options st) with
             | Normal _ => true
             | Throw _ => false
             end,
      after_execution true (loadData_code name data) st))
  /\ (ready st = false ->
      loadData E name data st = (Throw not_initialized, st)).
Proof.
  intros Hreach. split; intros Hr.
  - unfold loadData, M.bind at 1, M.gets. rewrite Hr. cbv beta iota.
    unfold negb. apply wrapped_call_flag;
      [exact Hreach | exact Hr | apply loadData_code_not_blank].
  - unfold loadData, M.bind at 1, M.gets. rewrite Hr. reflexivity.
Qed.

(** X10.  On a ready service [installPackage] does not throw: it sends
    the one [require] test for the package to the engine and returns
    [true] exactly when the engine ran it without throwing.  On a service
    that is not ready it throws the not-initialized error and sends
    nothing. *)
Theorem installPackage_outcome (name : jsstring) (st : State) :
  reachable E st ->
  (ready st = true ->
   installPackage E name st
   = (Normal match captureR E (calls st) (installPackage_code name)
                     (execute_options st) with
             | Normal _ => true
             | Throw _ => false
             end,
      after_execution true (installPackage_code name) st))
  /\ (ready st = false ->
      installPackage E name st = (Throw not_initialized, st)).
Proof.
  intros Hreach. split; intros Hr.
  - unfold installPackage, M.bind at 1, M.gets. rewrite Hr. cbv beta iota.
    unfold negb. apply wrapped_call_flag;
      [exact Hreach | exact Hr | apply installPackage_code_not_blank].
  - unfold installPackage, M.bind at 1, M.gets. rewrite Hr. reflexivity.
Qed.

End Loading.

Lemma loadData_outcome_witness :
  loadData demo_engine (js "df") (VArr [VNum 1; VNum 2]) demo_service
  = (Normal true,
     after_execution true (loadData_code (js "df") (VArr [VNum 1; VNum 2]))
       demo_service).
Proof.
  apply (proj1 (loadData_outcome demo_engine (js "df") (VArr [VNum 1; VNum 2])
                  demo_service
                  (reach_initialize demo_engine _
                     (reach_constructor demo_engine no_overrides)))).
  reflexivity.
Defined.

Lemma installPackage_outcome_witness :
  installPackage demo_engine (js "ggplot2") demo_service
  = (Normal true,
     after_execution true (installPackage_code (js "ggplot2")) demo_service)
  /\ installPackage demo_engine (js "ggplot2") fresh_service
     = (Throw not_initialized, fresh_service).
Proof.
  split.
  - apply (proj1 (installPackage_outcome demo_engine (js "ggplot2")
                    demo_service
                    (reach_initialize demo_engine _
                       (reach_constructor demo_engine no_overrides)))).
    reflexivity.
  - apply (proj2 (installPackage_outcome demo_engine (js "ggplot2")
                    fresh_service
                    (reach_constructor demo_engine no_overrides))).
    reflexivity.
Defined.

(* ===================================================================== *)
(** ** Splitting and joining lines *)
(* ===================================================================== *)

Lemma split_nonempty (sep : N) (s : jsstring) : split sep s <> [].
Proof.
  destruct s as [|c s]; simpl; [discriminate|].
  destruct (c =? sep)%N; [discriminate|].
  destruct (split sep s); discriminate.
Qed.

Lemma join_cons (sep p : jsstring) (more : list jsstring) :
  more <> [] -> join sep (p :: more) = p ++ sep ++ join sep more.
Proof.
  destruct more; [congruence | reflexivity].
Qed.

(** Joining the pieces of a split gives the text back. *)
Lemma join_split (sep : N) (s : jsstring) : join [sep] (split sep s) = s.
Proof.
  induction s as [|c s IH]; [reflexivity|].
  simpl split. destruct (N.eqb_spec c sep) as [Heq|Hne].
  - rewrite join_cons by apply split_nonempty. rewrite IH. subst. reflexivity.
  - pose proof (split_nonempty sep s) as Hn.
    destruct (split sep s) as [|piece more]; [congruence|].
    destruct more as [|q more].
    + simpl in *. rewrite IH. reflexivity.
    + rewrite join_cons in IH by discriminate.
      rewrite join_cons by discriminate.
      rewrite <- IH. reflexivity.
Qed.

Lemma split_sep_free (sep : N) (s : jsstring) :
  sep_free sep s = true -> split sep s = [s].
Proof.
  induction s as [|c s IH]; intros H; [reflexivity|].
  simpl in H. apply andb_true_iff in H. destruct H as [Hc Hs].
  simpl. destruct (c =? sep)%N; [discriminate|].
  rewrite (IH Hs). reflexivity.
Qed.

Lemma split_app_sep (sep : N) (p rest : jsstring) :
  sep_free sep p = true ->
  split sep (p ++ sep :: rest) = p :: split sep rest.
Proof.
  induction p as [|c p IH]; intros H.
  - simpl. rewrite N.eqb_refl. reflexivity.
  - simpl in H. apply andb_true_iff in H. destruct H as [Hc Hp].
    simpl. destruct (c =? sep)%N; [discriminate|].
    rewrite (IH Hp). reflexivity.
Qed.

(** Splitting a join of separator-free pieces gives the pieces back. *)
Lemma split_join (sep : N) (parts : list jsstring) :
  parts <> [] ->
  forallb (sep_free sep) parts = true ->
  split sep (join [sep] parts) = parts.
Proof.
  induction parts as [|p parts IH]; intros Hne Hall; [congruence|].
  simpl in Hall. apply andb_true_iff in Hall. destruct Hall as [Hp Hall].
  destruct parts as [|q parts].
  - simpl. apply split_sep_free. exact Hp.
  - rewrite join_cons by discriminate.
    change ([sep] ++ join [sep] (q :: parts))
      with (sep :: join [sep] (q :: parts)).
    rewrite split_app_sep by exact Hp.
    rewrite IH; [reflexivity | discriminate | exact Hall].
Qed.

Lemma split_pieces_sep_free (sep : N) (s : jsstring) :
  forallb (sep_free sep) (split sep s) = true.
Proof.
  induction s as [|c s IH]; [reflexivity|].
  simpl split. destruct (c =? sep)%N eqn:Hc.
  - simpl. exact IH.
  - pose proof (split_nonempty sep s) as Hn.
    destruct (split sep s) as [|piece more]; [congruence|].
    simpl in *. rewrite Hc. simpl. exact IH.
Qed.

Lemma length_join (sep : jsstring) (parts : list jsstring) :
  parts <> [] ->
  (List.length (join sep parts) + List.length sep
   = list_sum (List.map (@List.length N) parts)
     + List.length sep * List.length parts)%nat.
Proof.
  induction parts as [|p parts IH]; intros Hne; [congruence|].
  destruct parts as [|q parts].
  - simpl. lia.
  - rewrite join_cons by discriminate.
    rewrite !length_app.
    assert (Hq : q :: parts <> []) by discriminate.
    specialize (IH Hq). simpl in *. lia.
Qed.

(* --------------------------------------------------------------------- *)
(** *** Decimal digits *)
(* --------------------------------------------------------------------- *)

Lemma string_of_uint_digits (d : Decimal.uint) :
  forallb is_digit_or_minus
    (List.map N_of_ascii (list_ascii_of_string (NilEmpty.string_of_uint d)))
  = true.
Proof.
  induction d; simpl; try reflexivity; exact IHd.
Qed.

Lemma NilZero_string_of_uint_digits (d : Decimal.uint) :
  forallb is_digit_or_minus
    (List.map N_of_ascii (list_ascii_of_string (NilZero.string_of_uint d)))
  = true.
Proof.
  destruct d; try reflexivity;
    apply (string_of_uint_digits (_ d)) || apply string_of_uint_digits.
Qed.

Lemma numberToString_digits (z : Z) :
  forallb is_digit_or_minus (numberToString z) = true.
Proof.
  unfold numberToString, NilZero.string_of_int.
  destruct (Z.to_int z) as [d|d].
  - apply NilZero_string_of_uint_digits.
  - simpl. apply NilZero_string_of_uint_digits.
Qed.

Lemma forallb_impl {A} (f g : A -> bool) (l : list A) :
  (forall x, f x = true -> g x = true) ->
  forallb f l = true -> forallb g l = true.
Proof.
  intros Hfg. induction l as [|a l IH]; simpl; [reflexivity|].
  intros H. apply andb_true_iff in H. destruct H as [Ha Hl].
  rewrite (Hfg a Ha), (IH Hl). reflexivity.
Qed.

Lemma numberToString_line_free (z : Z) :
  sep_free 10 (numberToString z) = true.
Proof.
  apply (forallb_impl is_digit_or_minus); [|apply numberToString_digits].
  intros c. unfold is_digit_or_minus. intros H.
  destruct (N.eqb_spec c 10) as [->|]; [discriminate H | reflexivity].
Qed.

(* ===================================================================== *)
(** ** Numbered code lines *)
(* ===================================================================== *)

Lemma numbered_line_free (i : nat) (line : jsstring) :
  sep_free 10 line = true -> sep_free 10 (numbered i line) = true.
Proof.
  intros Hl. unfold numbered, padStart, sep_free.
  rewrite !forallb_app. fold (sep_free 10 line). rewrite Hl.
  fold (sep_free 10 (numberToString (Z.of_nat (i + 1)))).
  rewrite numberToString_line_free.
  assert (Hr : forall n, forallb (fun c => negb (c =? 10)%N) (repeat 32%N n)
                         = true)
    by (induction n; [reflexivity | exact IHn]).
  rewrite Hr. reflexivity.
Qed.

Lemma map_index_length {A B} (f : nat -> A -> B) (l : list A) :
  forall i, List.length (map_index f i l) = List.length l.
Proof.
  induction l as [|x l IH]; intros i; simpl; [reflexivity|].
  rewrite IH. reflexivity.
Qed.

Lemma numbered_lines_free (lines : list jsstring) :
  forall i,
    forallb (sep_free 10) lines = true ->
    forallb (sep_free 10) (map_index numbered i lines) = true.
Proof.
  induction lines as [|line lines IH]; intros i H; [reflexivity|].
  simpl in H. apply andb_true_iff in H. destruct H as [Hl Hls].
  cbn [map_index forallb].
  rewrite (numbered_line_free i line Hl), (IH (S i) Hls). reflexivity.
Qed.

Lemma number_width (i : nat) :
  (i < 999)%nat ->
  List.length (padStart 3 32 (numberToString (Z.of_nat (i + 1)))) = 3%nat.
Proof.
  intros Hi.
  assert (Hall : forallb
                   (fun k => (List.length
                                (padStart 3 32 (numberToString (Z.of_nat (k + 1))))
                              =? 3)%nat)
                   (seq 0 999) = true)
    by (vm_compute; reflexivity).
  rewrite forallb_forall in Hall.
  apply Nat.eqb_eq. apply Hall. apply in_seq. lia.
Qed.

Lemma numbered_lengths (lines : list jsstring) :
  forall i,
    (i + List.length lines <= 999)%nat ->
    list_sum (List.map (@List.length N) (map_index numbered i lines))
    = (7 * List.length lines + list_sum (List.map (@List.length N) lines))%nat.
Proof.
  induction lines as [|line lines IH]; intros i Hi; [reflexivity|].
  cbn [List.length] in Hi.
  change (map_index numbered i (line :: lines))
    with (numbered i line :: map_index numbered (S i) lines).
  rewrite !map_cons.
  change (list_sum (List.length (numbered i line)
                    :: List.map (@List.length N)
                         (map_index numbered (S i) lines)))
    with (List.length (numbered i line)
          + list_sum (List.map (@List.length N)
                        (map_index numbered (S i) lines)))%nat.
  change (list_sum (List.length line :: List.map (@List.length N) lines))
    with (List.length line + list_sum (List.map (@List.length N) lines))%nat.
  rewrite IH by lia.
  assert (Hw : List.length (numbered i line) = (7 + List.length line)%nat).
  { unfold numbered. rewrite !length_app, number_width by lia.
    change (List.length (js "  ")) with 2%nat.
    change (List.length (js ": ")) with 2%nat. lia. }
  rewrite Hw. cbn [List.length]. lia.
Qed.

(** X11.  [formatCode] keeps the line structure of the code: its result
    has one line per line of the code, in order, each the source line
    behind its number prefix.  For code of at most 999 lines every prefix
    is seven code units wide, so the result is longer than the code by
    seven units per line. *)
Theorem formatCode_lines (code : jsstring) :
  split 10 (formatCode code) = map_index numbered 0 (split 10 code)
  /\ ((List.length (split 10 code) <= 999)%nat ->
      List.length (formatCode code)
      = (List.length code + 7 * List.length (split 10 code))%nat).
Proof.
  assert (Hne : map_index numbered 0 (split 10 code) <> []).
  { intros H. apply (f_equal (@List.length jsstring)) in H.
    rewrite map_index_length in H. simpl in H.
    pose proof (split_nonempty 10 code) as Hs.
    destruct (split 10 code); [congruence | discriminate]. }
  change (formatCode code)
    with (join [10%N] (map_index numbered 0 (split 10 code))).
  split.
  - apply split_join; [exact Hne|].
    apply numbered_lines_free. apply split_pieces_sep_free.
  - intros Hle.
    pose proof (length_join [10%N] _ Hne) as H1.
    pose proof (length_join [10%N] _ (split_nonempty 10 code)) as H2.
    rewrite join_split in H2.
    rewrite numbered_lengths in H1 by (simpl; lia).
    rewrite map_index_length in H1. simpl List.length in H1, H2. lia.
Qed.

Lemma formatCode_lines_witness :
  List.length (formatCode (js "x <- 1") ) = 13%nat.
Proof.
  apply (proj2 (formatCode_lines (js "x <- 1"))).
  vm_compute. lia.
Defined.

(* ===================================================================== *)
(** ** Trimmed code *)
(* ===================================================================== *)





(* ===================================================================== *)
(** ** Running code from the page *)
(* ===================================================================== *)

(** X12.  [runCode] does not reach the service when no service is
    attached or it is not ready, when a run is already marked as going
    on, or when the editor holds white space only: the service and the
    storage stay as they are, and the only change to the page is one
    message line appended to the output. *)
Theorem runCode_refuses (E : Engine) (p : Page) :
  webRService (ui p) = false
  \/ ready (service p) = false
  \/ isRunning (ui p) = true
  \/ whitespace_only (value (codeInput (ui p))) = true ->
  service (runCode E p) = service p
  /\ localStorage (runCode E p) = localStorage p
  /\ exists line,
       line <> []
       /\ ui (runCode E p)
          = set_outputDiv (outputDiv (ui p) ++ line) (ui p).
Proof.
  intros H. unfold runCode.
  destruct (webRService (ui p)) eqn:Hw; simpl negb; simpl orb.
  - destruct (ready (service p)) eqn:Hr; simpl negb.
    + destruct (isRunning (ui p)) eqn:Hi.
      * split; [reflexivity|]. split; [reflexivity|].
        eexists. split; [|reflexivity]. discriminate.
      * assert (Hws : whitespace_only (value (codeInput (ui p))) = true).
        { destruct H as [H|[H|[H|H]]]; try discriminate. exact H. }
        apply trim_nil_iff in Hws. rewrite Hws. simpl.
        split; [reflexivity|]. split; [reflexivity|].
        eexists. split; [|reflexivity]. discriminate.
    + split; [reflexivity|]. split; [reflexivity|].
      eexists. split; [|reflexivity]. discriminate.
  - split; [reflexivity|]. split; [reflexivity|].
    eexists. split; [|reflexivity]. discriminate.
Qed.

Lemma runCode_refuses_witness :
  service (runCode demo_engine (set_ui (setRunning true demo_ui) demo_page))
  = demo_service.
Proof.
  apply (proj1 (runCode_refuses demo_engine
                  (set_ui (setRunning true demo_ui) demo_page)
                  (or_intror (or_intror (or_introl eq_refl))))).
Defined.



(* ===================================================================== *)
(** ** Editing and saving *)
(* ===================================================================== *)

Lemma substring_to (s : jsstring) (z : Z) :
  (0 <= z <= Z.of_nat (List.length s))%Z ->
  substring s 0 z = firstn (Z.to_nat z) s.
Proof.
  intros Hz. unfold substring.
  replace (Z.to_nat (Z.min (Z.min (Z.max 0 0) (Z.of_nat (List.length s)))
                           (Z.min (Z.max z 0) (Z.of_nat (List.length s)))))
    with 0%nat by lia.
  simpl skipn. f_equal. lia.
Qed.

Lemma substring_from_skipn (s : jsstring) (z : Z) :
  (0 <= z <= Z.of_nat (List.length s))%Z ->
  substring_from s z = skipn (Z.to_nat z) s.
Proof.
  intros Hz. unfold substring_from, substring.
  replace (Z.to_nat
             (Z.min (Z.min (Z.max z 0) (Z.of_nat (List.length s)))
                    (Z.min (Z.max (Z.of_nat (List.length s)) 0)
                           (Z.of_nat (List.length s)))))
    with (Z.to_nat z) by lia.
  apply firstn_all2. rewrite length_skipn. lia.
Qed.

(** X14.  With the selection inside the text, [insertTab] replaces the
    selected text by two spaces and keeps what is before and after it;
    the text gets longer by two minus the selection length, and the
    cursor, collapsed right behind the two spaces, is inside the new
    text.  Nothing else on the page changes. *)
Theorem insertTab_replaces_selection (u : UIController) :
  (0 <= selectionStart (codeInput u) <= selectionEnd (codeInput u))%Z ->
  (selectionEnd (codeInput u)
   <= Z.of_nat (List.length (value (codeInput u))))%Z ->
  let start := selectionStart (codeInput u) in
  let finish := selectionEnd (codeInput u) in
  let text := value (codeInput u) in
  let after := codeInput (insertTab u) in
  value after
  = firstn (Z.to_nat start) text ++ [32%N; 32%N] ++ skipn (Z.to_nat finish) text
  /\ Z.of_nat (List.length (value after))
     = (Z.of_nat (List.length text) - (finish - start) + 2)%Z
  /\ selectionStart after = (start + 2)%Z
  /\ selectionEnd after = (start + 2)%Z
  /\ (0 <= selectionStart after <= Z.of_nat (List.length (value after)))%Z
  /\ insertTab u = set_codeInput after u.
Proof.
  intros Hs He start finish text after.
  assert (Hv : value after
               = firstn (Z.to_nat start) text ++ [32%N; 32%N]
                 ++ skipn (Z.to_nat finish) text).
  { unfold after, insertTab. cbn [codeInput set_codeInput value].
    fold start finish text.
    rewrite substring_to by (unfold start, finish, text; lia).
    rewrite substring_from_skipn by (unfold start, finish, text; lia).
    reflexivity. }
  assert (Hl : Z.of_nat (List.length (value after))
               = (Z.of_nat (List.length text) - (finish - start) + 2)%Z).
  { rewrite Hv, !length_app, length_skipn, firstn_length_le
      by (unfold start, finish, text in *; lia).
    cbn [List.length]. unfold start, finish, text in *. lia. }
  split; [exact Hv|]. split; [exact Hl|].
  split; [reflexivity|]. split; [reflexivity|].
  split; [|reflexivity].
  rewrite Hl. change (selectionStart after) with (start + 2)%Z.
  unfold start, finish, text in *. lia.
Qed.

Lemma insertTab_replaces_selection_witness :
  value (codeInput (insertTab demo_ui)) = js "    (1)  ".
Proof.
  refine (proj1 (insertTab_replaces_selection demo_ui _ _)).
  - vm_compute. split; discriminate.
  - vm_compute. discriminate.
Defined.

Lemma getItem_setItem_same (k v : jsstring) (store : Storage.t) :
  Storage.getItem k (Storage.setItem k v store) = Some v.
Proof.
  unfold Storage.setItem. simpl.
  rewrite (proj2 (jsstring_eqb_eq k k) eq_refl). reflexivity.
Qed.

Lemma getItem_removeItem_other (k k' : jsstring) (store : Storage.t) :
  k <> k' ->
  Storage.getItem k' (Storage.removeItem k store) = Storage.getItem k' store.
Proof.
  intros Hne. induction store as [|[a v] store IH]; [reflexivity|].
  simpl. destruct (JsString.eqb a k) eqn:Hak.
  - apply jsstring_eqb_eq in Hak. subst a.
    destruct (JsString.eqb k k') eqn:Hkk.
    + apply jsstring_eqb_eq in Hkk. congruence.
    + exact IH.
  - simpl. destruct (JsString.eqb a k'); [reflexivity | exact IH].
Qed.

Lemma getItem_setItem_other (k k' v : jsstring) (store : Storage.t) :
  k <> k' ->
  Storage.getItem k' (Storage.setItem k v store) = Storage.getItem k' store.
Proof.
  intros Hne. unfold Storage.setItem. simpl.
  destruct (JsString.eqb k k') eqn:Hkk.
  - apply jsstring_eqb_eq in Hkk. congruence.
  - apply getItem_removeItem_other. exact Hne.
Qed.

Lemma code_key_not_theme_key : code_key <> theme_key.
Proof. vm_compute. discriminate. Qed.

(** X15.  Code saved with [saveCode] comes back with [loadSavedCode],
    whatever was typed in between, provided the saved code was not empty;
    an empty saved code, or no saved code at all, leaves the editor as it
    is.  Saving the code does not touch the stored theme. *)
Theorem saved_code_round_trip (p : Page) (edited : UIController) :
  let saved := value (codeInput (ui p)) in
  let restored := loadSavedCode (set_ui edited (saveCode p)) in
  (saved <> [] -> value (codeInput (ui restored)) = saved)
  /\ (saved = [] -> ui restored = edited)
  /\ (Storage.getItem code_key (localStorage p) = None ->
      loadSavedCode p = p)
  /\ Storage.getItem theme_key (localStorage (saveCode p))
     = Storage.getItem theme_key (localStorage p).
Proof.
  intros saved restored.
  assert (Hget : Storage.getItem code_key
                   (localStorage (set_ui edited (saveCode p)))
                 = Some saved)
    by (unfold saveCode, set_ui; cbn [localStorage]; apply getItem_setItem_same).
  split; [|split; [|split]].
  - intros Hne. unfold restored, loadSavedCode. rewrite Hget.
    destruct saved as [|c saved']; [congruence | reflexivity].
  - intros Hnil. unfold restored, loadSavedCode. rewrite Hget, Hnil.
    reflexivity.
  - intros Hnone. unfold loadSavedCode. rewrite Hnone. reflexivity.
  - unfold saveCode. cbn [localStorage].
    apply getItem_setItem_other. exact code_key_not_theme_key.
Qed.

Lemma saved_code_round_trip_witness :
  value (codeInput (ui (loadSavedCode
                          (set_ui (insertTab demo_ui) (saveCode demo_page)))))
  = js "  plot(1)  ".
Proof.
  apply (proj1 (saved_code_round_trip demo_page (insertTab demo_ui))).
  discriminate.
Defined.

(* ===================================================================== *)
(** ** Theme preference *)
(* ===================================================================== *)

(** X16.  [getPreferredTheme] always answers dark or light.  A system
    preference for dark wins over any stored theme; without it, the theme
    stored by [setTheme] is the answer when it is dark or light, and
    light otherwise.  [setTheme] does not touch the saved code. *)
Theorem theme_preference (b : Browser) (theme : jsstring) :
  (getPreferredTheme b = js "dark" \/ getPreferredTheme b = js "light")
  /\ (prefers_dark b = Some true ->
      getPreferredTheme (snd (setTheme theme b)) = js "dark")
  /\ (prefers_dark b <> Some true ->
      (theme = js "dark" \/ theme = js "light" ->
       getPreferredTheme (snd (setTheme theme b)) = theme)
      /\ (theme <> js "dark" -> theme <> js "light" ->
          getPreferredTheme (snd (setTheme theme b)) = js "light"))
  /\ Storage.getItem code_key (storage (snd (setTheme theme b)))
     = Storage.getItem code_key (storage b).
Proof.
  split; [|split; [|split]].
  - unfold getPreferredTheme.
    destruct (or_default (prefers_dark b) false); [left; reflexivity|].
    destruct (Storage.getItem theme_key (storage b)) as [saved|];
      [|right; reflexivity].
    destruct (JsString.eqb saved (js "dark")) eqn:Hd.
    + left. apply jsstring_eqb_eq in Hd. exact Hd.
    + destruct (JsString.eqb saved (js "light")) eqn:Hl.
      * right. apply jsstring_eqb_eq in Hl. exact Hl.
      * right. reflexivity.
  - intros Hp. unfold getPreferredTheme, setTheme. cbn [snd prefers_dark].
    rewrite Hp. reflexivity.
  - intros Hp.
    assert (Hoff : or_default (prefers_dark b) false = false).
    { destruct (prefers_dark b) as [[|]|]; [congruence | reflexivity..]. }
    assert (Hget : getPreferredTheme (snd (setTheme theme b))
                   = if JsString.eqb theme (js "dark")
                        || JsString.eqb theme (js "light")
                     then theme else js "light").
    { unfold getPreferredTheme, setTheme. cbn [snd prefers_dark storage].
      rewrite Hoff, getItem_setItem_same. reflexivity. }
    rewrite Hget. split.
    + intros [Ht|Ht]; subst theme; reflexivity.
    + intros Hd Hl.
      destruct (JsString.eqb theme (js "dark")) eqn:Ed;
        [apply jsstring_eqb_eq in Ed; congruence|].
      destruct (JsString.eqb theme (js "light")) eqn:El;
        [apply jsstring_eqb_eq in El; congruence|].
      reflexivity.
  - unfold setTheme. cbn [snd storage].
    apply getItem_setItem_other. intros H. symmetry in H.
    exact (code_key_not_theme_key H).
Qed.

Lemma theme_preference_witness :
  getPreferredTheme
    (snd (setTheme (js "dark")
            {| prefers_dark := Some false; storage := [];
               body_theme := None |}))
  = js "dark".
Proof.
  refine (proj1 (proj1 (proj2 (proj2
    (theme_preference
       {| prefers_dark := Some false; storage := []; body_theme := None |}
       (js "dark")))) _) _).
  - discriminate.
  - left. reflexivity.
Defined.

(* ===================================================================== *)
(** ** Shortcut keys *)
(* ===================================================================== *)

Lemma table_get_set_same {A} (k : jsstring) (v : A)
  (table : list (jsstring * A)) :
  Table.get k (Table.set k v table) = Some v.
Proof.
  induction table as [|[a old] table IH]; simpl.
  - rewrite (proj2 (jsstring_eqb_eq k k) eq_refl). reflexivity.
  - destruct (JsString.eqb a k) eqn:Hak; simpl; rewrite Hak;
      [reflexivity | exact IH].
Qed.

Lemma table_get_set_other {A} (k k' : jsstring) (v : A)
  (table : list (jsstring * A)) :
  k <> k' -> Table.get k' (Table.set k v table) = Table.get k' table.
Proof.
  intros Hne. induction table as [|[a old] table IH]; simpl.
  - destruct (JsString.eqb k k') eqn:Hkk; [|reflexivity].
    apply jsstring_eqb_eq in Hkk. congruence.
  - destruct (JsString.eqb a k) eqn:Hak; simpl.
    + apply jsstring_eqb_eq in Hak. subst a.
      destruct (JsString.eqb k k') eqn:Hkk; [|reflexivity].
      apply jsstring_eqb_eq in Hkk. congruence.
    + destruct (JsString.eqb a k'); [reflexivity | exact IH].
Qed.

Section ShortcutFacts.

Variable toLowerCase : jsstring -> jsstring.

Lemma shortcut_parts_inj (k k' : jsstring) (c s a c' s' a' : bool) :
  shortcut_parts toLowerCase k c s a = shortcut_parts toLowerCase k' c' s' a' ->
  c = c' /\ s = s' /\ a = a' /\ toLowerCase k = toLowerCase k'.
Proof.
  unfold shortcut_parts.
  destruct c, s, a, c', s', a'; intros H; vm_compute in H;
    inversion H; repeat split; reflexivity.
Qed.

Lemma shortcut_parts_plus_free (k : jsstring) (c s a : bool) :
  plus_free (toLowerCase k) = true ->
  forallb (sep_free 43) (shortcut_parts toLowerCase k c s a) = true.
Proof.
  intros Hk. unfold shortcut_parts. rewrite !forallb_app.
  destruct c, s, a; cbn [forallb];
    change (sep_free 43 (toLowerCase k)) with (plus_free (toLowerCase k));
    rewrite Hk; reflexivity.
Qed.

Lemma shortcut_parts_nonempty (k : jsstring) (c s a : bool) :
  shortcut_parts toLowerCase k c s a <> [].
Proof.
  unfold shortcut_parts. destruct c, s, a; discriminate.
Qed.

Lemma getShortcutKey_inj (k k' : jsstring) (c s a c' s' a' : bool) :
  plus_free (toLowerCase k) = true ->
  plus_free (toLowerCase k') = true ->
  getShortcutKey toLowerCase k c s a = getShortcutKey toLowerCase k' c' s' a' ->
  c = c' /\ s = s' /\ a = a' /\ toLowerCase k = toLowerCase k'.
Proof.
  intros Hk Hk' H. apply shortcut_parts_inj.
  unfold getShortcutKey in H. change (js "+") with [43%N] in H.
  rewrite <- (split_join 43 (shortcut_parts toLowerCase k c s a))
    by (apply shortcut_parts_nonempty || (apply shortcut_parts_plus_free; exact Hk)).
  rewrite <- (split_join 43 (shortcut_parts toLowerCase k' c' s' a'))
    by (apply shortcut_parts_nonempty || (apply shortcut_parts_plus_free; exact Hk')).
  rewrite H. reflexivity.
Qed.

(** X17.  For key names without a plus sign, the table key built by
    [getShortcutKey] tells the modifier flags and the lower-cased key
    apart: two combinations get the same table key only when they agree
    on all four. *)
Theorem shortcut_keys_distinct (k k' : jsstring) (c s a c' s' a' : bool) :
  plus_free (toLowerCase k) = true ->
  plus_free (toLowerCase k') = true ->
  (getShortcutKey toLowerCase k c s a = getShortcutKey toLowerCase k' c' s' a'
   <-> c = c' /\ s = s' /\ a = a' /\ toLowerCase k = toLowerCase k').
Proof.
  intros Hk Hk'. split.
  - apply getShortcutKey_inj; assumption.
  - intros [Hc [Hs [Ha Hl]]]. subst c' s' a'.
    unfold getShortcutKey, shortcut_parts. rewrite Hl. reflexivity.
Qed.

Variable Action : Type.

(** X18.  [registerShortcut] under a table key other than [__proto__]
    stores the action as an own property of the plain object; after it, a
    key event with the same lower-cased key and the same modifiers (Ctrl
    or the Meta key counting as Ctrl) calls the registered action,
    replacing any earlier binding, and, for key names without a plus
    sign, every other event is handled as before the registration.
    Under the table key [__proto__] nothing is stored: the action becomes
    the prototype of the object. *)
Theorem registered_shortcut_dispatch
  (k : jsstring) (c s a : bool) (action : Action)
  (shortcuts : list (jsstring * Action)) (event : KeyboardEvent) :
  (getShortcutKey toLowerCase k c s a = proto_name ->
   registerShortcut toLowerCase Action k c s a action shortcuts
   = Prototype_replaced action)
  /\ (getShortcutKey toLowerCase k c s a <> proto_name ->
      exists table,
        registerShortcut toLowerCase Action k c s a action shortcuts
        = Stored table
        /\ (toLowerCase (key event) = toLowerCase k ->
            ctrlKey event || metaKey event = c ->
            shiftKey event = s ->
            altKey event = a ->
            handleKeyboardShortcut toLowerCase Action table event
            = Calls action)
        /\ (plus_free (toLowerCase k) = true ->
            plus_free (toLowerCase (key event)) = true ->
            ~ (toLowerCase (key event) = toLowerCase k
               /\ ctrlKey event || metaKey event = c
               /\ shiftKey event = s
               /\ altKey event = a) ->
            handleKeyboardShortcut toLowerCase Action table event
            = handleKeyboardShortcut toLowerCase Action shortcuts event)).
Proof.
  unfold registerShortcut. cbv zeta. split.
  - intros Hp. rewrite Hp. reflexivity.
  - intros Hp.
    destruct (JsString.eqb (getShortcutKey toLowerCase k c s a) proto_name)
      eqn:Heqb; [apply jsstring_eqb_eq in Heqb; contradiction|].
    exists (Table.set (getShortcutKey toLowerCase k c s a) action shortcuts).
    split; [reflexivity|]. unfold handleKeyboardShortcut. cbv zeta. split.
    + intros Hl Hc Hs Ha.
      assert (Hk : getShortcutKey toLowerCase (key event)
                     (ctrlKey event || metaKey event) (shiftKey event)
                     (altKey event)
                   = getShortcutKey toLowerCase k c s a).
      { unfold getShortcutKey, shortcut_parts. rewrite Hl, Hc, Hs, Ha.
        reflexivity. }
      rewrite Hk. rewrite table_get_set_same. reflexivity.
    + intros Hk He Hdiff. rewrite table_get_set_other; [reflexivity|].
      intros Heq. apply Hdiff.
      destruct (getShortcutKey_inj _ _ _ _ _ _ _ _ Hk He Heq)
        as [Hc [Hs [Ha Hl]]].
      repeat split; congruence.
Qed.

End ShortcutFacts.

Lemma shortcut_keys_distinct_witness :
  getShortcutKey ascii_lower (js "Enter") true false false
  <> getShortcutKey ascii_lower (js "enter") true true false.
Proof.
  intros H.
  destruct (proj1 (shortcut_keys_distinct ascii_lower (js "Enter") (js "enter")
                     true false false true true false eq_refl eq_refl) H)
    as [_ [Hs _]].
  discriminate Hs.
Defined.

Lemma registered_shortcut_dispatch_witness :
  exists table,
    registerShortcut ascii_lower nat (js "Enter") true false false 1%nat
      [(js "ctrl+enter", 0%nat)]
    = Stored table
    /\ handleKeyboardShortcut ascii_lower nat table
         {| key := js "Enter"; ctrlKey := false; metaKey := true;
            shiftKey := false; altKey := false |}
       = Calls 1%nat
    /\ handleKeyboardShortcut ascii_lower nat table
         {| key := js "constructor"; ctrlKey := false; metaKey := false;
            shiftKey := false; altKey := false |}
       = Calls_inherited (js "constructor").
Proof.
  destruct (proj2 (registered_shortcut_dispatch ascii_lower nat (js "Enter")
                     true false false 1%nat [(js "ctrl+enter", 0%nat)]
                     {| key := js "Enter"; ctrlKey := false; metaKey := true;
                        shiftKey := false; altKey := false |}))
    as [table [Ht [Hsame _]]].
  { vm_compute. discriminate. }
  destruct (proj2 (registered_shortcut_dispatch ascii_lower nat (js "Enter")
                     true false false 1%nat [(js "ctrl+enter", 0%nat)]
                     {| key := js "constructor"; ctrlKey := false;
                        metaKey := false; shiftKey := false;
                        altKey := false |}))
    as [table' [Ht' [_ Hother]]].
  { vm_compute. discriminate. }
  exists table. split; [exact Ht|]. split.
  - apply Hsame; reflexivity.
  - assert (Heq : table' = table) by congruence. subst table'.
    rewrite Hother.
    + reflexivity.
    + reflexivity.
    + reflexivity.
    + intros [H _]. vm_compute in H. discriminate.
Defined.

(* ===================================================================== *)
(** ** The example catalogue *)
(* ===================================================================== *)

Lemma set_add_in (x y : jsstring) (s : list jsstring) :
  In x (set_add y s) <-> x = y \/ In x s.
Proof.
  unfold set_add. destruct (existsb (JsString.eqb y) s) eqn:Hex.
  - split; [intros H; right; exact H|].
    intros [Hxy|H]; [|exact H]. subst x.
    apply existsb_exists in Hex. destruct Hex as [z [Hz Hyz]].
    apply jsstring_eqb_eq in Hyz. subst z. exact Hz.
  - rewrite in_app_iff. simpl. split.
    + intros [H|[H|[]]]; [right; exact H | left; symmetry; exact H].
    + intros [H|H]; [right; left; symmetry; exact H | left; exact H].
Qed.

Lemma set_add_nodup (y : jsstring) (s : list jsstring) :
  NoDup s -> NoDup (set_add y s).
Proof.
  intros Hs. unfold set_add.
  destruct (existsb (JsString.eqb y) s) eqn:Hex; [exact Hs|].
  apply NoDup_app; [exact Hs | repeat constructor; intros [] |].
  intros x Hx [Hy|[]]. subst x.
  assert (Ht : existsb (JsString.eqb y) s = true).
  { apply existsb_exists. exists y. split; [exact Hx|].
    apply jsstring_eqb_eq. reflexivity. }
  congruence.
Qed.

Lemma collect_categories (l : list CodeExample) :
  forall acc,
    NoDup acc ->
    let result :=
      fold_left
        (fun categories ex =>
           if JsString.truthy (ex_category ex)
           then set_add (ex_category ex) categories
           else categories) l acc in
    NoDup result
    /\ forall c, In c result
                 <-> In c acc
                     \/ (c <> [] /\ exists ex, In ex l /\ ex_category ex = c).
Proof.
  induction l as [|ex l IH]; intros acc Hacc; simpl.
  - split; [exact Hacc|]. intros c. split; [tauto|].
    intros [H|[_ [ex [[] _]]]]. exact H.
  - destruct (JsString.truthy (ex_category ex)) eqn:Ht.
    + destruct (IH (set_add (ex_category ex) acc) (set_add_nodup _ _ Hacc))
        as [Hnd Hin].
      split; [exact Hnd|]. intros c. rewrite Hin, set_add_in. split.
      * intros [[Hc|Hc]|[Hne [e [He Hec]]]].
        -- right. subst c. split.
           ++ destruct (ex_category ex); [discriminate | discriminate].
           ++ exists ex. split; [left; reflexivity | reflexivity].
        -- left. exact Hc.
        -- right. split; [exact Hne|]. exists e. split; [right; exact He | exact Hec].
      * intros [Hc|[Hne [e [[He|He] Hec]]]].
        -- left. right. exact Hc.
        -- subst e. left. left. symmetry. exact Hec.
        -- right. split; [exact Hne|]. exists e. split; assumption.
    + destruct (IH acc Hacc) as [Hnd Hin].
      split; [exact Hnd|]. intros c. rewrite Hin. split.
      * intros [Hc|[Hne [e [He Hec]]]]; [left; exact Hc|].
        right. split; [exact Hne|]. exists e. split; [right; exact He | exact Hec].
      * intros [Hc|[Hne [e [[He|He] Hec]]]]; [left; exact Hc | |].
        -- subst e. rewrite Hec in Ht. destruct c; [congruence | discriminate].
        -- right. split; [exact Hne|]. exists e. split; assumption.
Qed.

Section ExampleFacts.

Variable examples : list (jsstring * CodeExample).

(** X19.  [getCategories] lists every category once, and lists exactly
    the non-empty categories under which [getExamplesByCategory] finds an
    example; every example with a non-empty category is found under its
    own category, and [getExamplesByCategory] returns only examples of the
    category asked for. *)
Theorem categories_cover_examples :
  NoDup (getCategories examples)
  /\ (forall c,
        In c (getCategories examples)
        <-> c <> [] /\ getExamplesByCategory examples c <> [])
  /\ (forall ex,
        In ex (getAllExamples examples) ->
        ex_category ex <> [] ->
        In ex (getExamplesByCategory examples (ex_category ex))
        /\ In (ex_category ex) (getCategories examples))
  /\ (forall c ex,
        In ex (getExamplesByCategory examples c) ->
        In ex (getAllExamples examples) /\ ex_category ex = c).
Proof.
  destruct (collect_categories (Object_values examples) [] (NoDup_nil _))
    as [Hnd Hin].
  fold (getCategories examples) in Hnd, Hin.
  assert (Hfilter : forall c ex,
             In ex (getExamplesByCategory examples c)
             <-> In ex (Object_values examples) /\ ex_category ex = c).
  { intros c ex. unfold getExamplesByCategory. rewrite filter_In.
    rewrite jsstring_eqb_eq. reflexivity. }
  split; [exact Hnd|]. split; [|split].
  - intros c. rewrite Hin. split.
    + intros [[]|[Hne [ex [Hex Hc]]]]. split; [exact Hne|].
      intros Hnil.
      assert (Hi : In ex (getExamplesByCategory examples c))
        by (apply Hfilter; split; assumption).
      rewrite Hnil in Hi. exact Hi.
    + intros [Hne Hfound]. right. split; [exact Hne|].
      destruct (getExamplesByCategory examples c) as [|ex l] eqn:Hl;
        [congruence|].
      assert (Hi : In ex (getExamplesByCategory examples c))
        by (rewrite Hl; left; reflexivity).
      apply Hfilter in Hi. exists ex. exact Hi.
  - intros ex Hex Hne. split.
    + apply Hfilter. split; [exact Hex | reflexivity].
    + apply Hin. right. split; [exact Hne|]. exists ex.
      split; [exact Hex | reflexivity].
  - intros c ex Hi. apply Hfilter in Hi. exact Hi.
Qed.

Lemma table_get_unique {A} (table : list (jsstring * A)) (k : jsstring) (v : A) :
  NoDup (List.map fst table) -> In (k, v) table -> Table.get k table = Some v.
Proof.
  induction table as [|[a w] table IH]; intros Hnd Hin; [destruct Hin|].
  simpl in Hnd. inversion Hnd as [|? ? Hnotin Hnd']. subst.
  simpl. destruct Hin as [Heq|Hin].
  - inversion Heq. subst. rewrite (proj2 (jsstring_eqb_eq k k) eq_refl).
    reflexivity.
  - destruct (JsString.eqb a k) eqn:Hak.
    + apply jsstring_eqb_eq in Hak. subst a. exfalso. apply Hnotin.
      apply (in_map fst) in Hin. exact Hin.
    + apply IH; assumption.
Qed.

(** X20.  When every entry of the catalogue is filed under its own id
    and no key occurs twice, loading an example by the id of any listed
    example with code puts that example's code into the editor, with the
    cursor at the start.  An id that is not a key of the catalogue, or an
    example without code, leaves the page as it is. *)
Theorem loadExample_by_id (u : UIController) :
  (NoDup (List.map fst examples) ->
   (forall k ex, In (k, ex) examples -> ex_id ex = k) ->
   forall ex,
     In ex (getAllExamples examples) ->
     ex_code ex <> [] ->
     codeInput (loadExample examples (ex_id ex) u)
     = {| value := ex_code ex; selectionStart := 0; selectionEnd := 0 |})
  /\ (forall id,
        Table.get id examples = None -> loadExample examples id u = u)
  /\ (forall id ex,
        Table.get id examples = Some ex -> ex_code ex = [] ->
        loadExample examples id u = u).
Proof.
  split; [|split].
  - intros Hnd Hid ex Hex Hcode.
    unfold getAllExamples, Object_values in Hex.
    apply in_map_iff in Hex. destruct Hex as [[k e] [He Hin]].
    simpl in He. subst e.
    rewrite (Hid k ex Hin).
    unfold loadExample, getExampleCode.
    rewrite (table_get_unique examples k ex Hnd Hin).
    destruct (ex_code ex) as [|c code]; [congruence | reflexivity].
  - intros id Hnone. unfold loadExample, getExampleCode. rewrite Hnone.
    reflexivity.
  - intros id ex Hsome Hnil. unfold loadExample, getExampleCode.
    rewrite Hsome, Hnil. reflexivity.
Qed.

End ExampleFacts.

Lemma categories_cover_examples_witness :
  In (js "basic") (getCategories demo_examples).
Proof.
  apply (proj2 (proj1 (proj2 (categories_cover_examples demo_examples))
                  (js "basic"))).
  split; vm_compute; discriminate.
Defined.

Lemma loadExample_by_id_witness :
  codeInput (loadExample demo_examples (js "plot") demo_ui)
  = {| value := js "plot(sin)"; selectionStart := 0; selectionEnd := 0 |}.
Proof.
  refine (proj1 (loadExample_by_id demo_examples demo_ui) _ _
            {| ex_id := js "plot"; ex_label := js "グラフ作成";
               ex_category := js "visualization"; ex_description := js "sine";
               ex_code := js "plot(sin)" |} _ _).
  - repeat constructor; vm_compute; intuition discriminate.
  - intros k ex [H|[H|[H|[]]]]; inversion H; reflexivity.
  - right. left. reflexivity.
  - discriminate.
Defined.

(* ===================================================================== *)
(** ** More on formatting and calls *)
(* ===================================================================== *)

Lemma join_app (sep : jsstring) (a b : list jsstring) :
  a <> [] -> b <> [] ->
  join sep (a ++ b) = join sep a ++ sep ++ join sep b.
Proof.
  intros Ha Hb. induction a as [|p a IH]; [congruence|].
  destruct a as [|q a].
  - simpl app. rewrite join_cons by exact Hb. reflexivity.
  - change ((p :: q :: a) ++ b) with (p :: ((q :: a) ++ b)).
    rewrite join_cons by (simpl; discriminate).
    rewrite IH by discriminate.
    rewrite (join_cons sep p (q :: a)) by discriminate.
    rewrite <- !app_assoc. reflexivity.
Qed.

(** X21.  Formatting two captures one after the other is formatting
    each and putting a newline between them; a missing or empty capture
    formats to the empty text. *)
Theorem formatOutput_app (a b : list jsval) :
  formatOutput None = []
  /\ formatOutput (Some []) = []
  /\ (a <> [] -> b <> [] ->
      formatOutput (Some (a ++ b))
      = formatOutput (Some a) ++ LF ++ formatOutput (Some b)).
Proof.
  split; [reflexivity|]. split; [reflexivity|].
  intros Ha Hb. unfold formatOutput.
  destruct a as [|x a]; [congruence|].
  destruct b as [|y b]; [congruence|].
  cbn [List.length app Nat.eqb]. unfold array_join.
  change (x :: a ++ y :: b) with ((x :: a) ++ y :: b).
  rewrite !map_app. apply join_app; discriminate.
Qed.

Lemma formatOutput_app_witness :
  formatOutput (Some ([VStr (js "a")] ++ [captured (Stderr, js "b")]))
  = formatOutput (Some [VStr (js "a")]) ++ LF
    ++ formatOutput (Some [captured (Stderr, js "b")]).
Proof.
  apply (proj2 (proj2 (formatOutput_app [VStr (js "a")]
                         [captured (Stderr, js "b")]))); discriminate.
Defined.

(** X22.  A capture of plain text items is formatted as the items
    joined by newlines, verbatim; when no item holds a newline, splitting
    the formatted text into lines gives the items back, one line each. *)
Theorem formatOutput_plain_text (lines : list jsstring) :
  formatOutput (Some (List.map VStr lines)) = join LF lines
  /\ (lines <> [] ->
      forallb (sep_free 10) lines = true ->
      split 10 (formatOutput (Some (List.map VStr lines))) = lines).
Proof.
  assert (Heq : formatOutput (Some (List.map VStr lines)) = join LF lines).
  { unfold formatOutput. destruct lines as [|l lines]; [reflexivity|].
    change (List.length (List.map VStr (l :: lines)) =? 0)%nat with false.
    cbv iota. unfold array_join. rewrite !map_map.
    apply (f_equal (join LF)).
    transitivity (List.map (fun x : jsstring => x) (l :: lines));
      [apply map_ext; intros s; reflexivity | apply map_id]. }
  split; [exact Heq|].
  intros Hne Hfree. rewrite Heq. apply split_join; assumption.
Qed.

Lemma formatOutput_plain_text_witness :
  split 10 (formatOutput (Some (List.map VStr [js "mean = 3"; js "sd = 1"])))
  = [js "mean = 3"; js "sd = 1"].
Proof.
  apply (proj2 (formatOutput_plain_text [js "mean = 3"; js "sd = 1"]));
    [discriminate | reflexivity].
Defined.

Section CallFacts.

Variable E : Engine.

(** X23.  [executeCode] never changes the readiness flag, the
    configuration or the engine and shelter handles.  It either leaves the
    state alone (not ready, or blank code), or takes exactly two clock
    readings, clears the cancellation handle and records at most one
    engine call, the one for the given code. *)
Theorem executeCode_frame (code : jsstring) (st : State) :
  let st' := snd (executeCode E code st) in
  same_service st st'
  /\ (st' = st
      \/ (clock_reads st' = S (S (clock_reads st))
          /\ currentExecution st' = None
          /\ (calls st' = calls st
              \/ calls st' = calls st ++ [(code, execute_options st)]))).
Proof.
  intros st'. split; [apply executeCode_same_service|].
  subst st'.
  destruct (executeCode_final_state E code st) as [H|[_ [_ H]]]; rewrite H.
  - left. reflexivity.
  - right. split; [reflexivity|]. split; [reflexivity|].
    unfold after_execution. cbn [calls].
    destruct (has_shelter st); [right | left]; reflexivity.
Qed.

(** X24.  On a ready service [getVariable] sends exactly one piece of
    code to the engine, the [toJSON] call for the variable, and leaves the
    state that execution leaves; on a service that is not ready it throws
    the not-initialized error and sends nothing. *)
Theorem getVariable_engine_call (name : jsstring) (st : State) :
  reachable E st ->
  (ready st = true ->
   snd (getVariable E name st) = after_execution true (variable_code name) st
   /\ calls (snd (getVariable E name st))
      = calls st ++ [(variable_code name, execute_options st)])
  /\ (ready st = false ->
      getVariable E name st = (Throw not_initialized, st)).
Proof.
  intros Hreach. split; intros Hr.
  - destruct (consistent_of_reachable E st Hreach) as [Hc _].
    destruct (Hc Hr) as [_ Hs].
    assert (Hb : is_blank (variable_code name) = false).
    { apply is_blank_false. unfold whitespace_only, variable_code.
      rewrite !forallb_app. reflexivity. }
    rewrite getVariable_state.
    rewrite executeCode_engine by (try assumption; congruence).
    split; reflexivity.
  - unfold getVariable, M.bind at 1, M.gets. rewrite Hr. reflexivity.
Qed.

End CallFacts.

Lemma getVariable_engine_call_witness :
  snd (getVariable demo_engine (js "x") demo_service)
  = after_execution true (variable_code (js "x")) demo_service
  /\ calls (snd (getVariable demo_engine (js "x") demo_service))
     = calls demo_service
       ++ [(variable_code (js "x"), execute_options demo_service)].
Proof.
  apply (proj1 (getVariable_engine_call demo_engine (js "x") demo_service
                  (reach_initialize demo_engine _
                     (reach_constructor demo_engine no_overrides)))).
  reflexivity.
Defined.

(** X25.  [destroy] never throws and is idempotent: it leaves the
    service not ready, without engine, shelter or cancellation handle,
    and keeps the configuration and the record of calls.  A destroyed
    service can be initialized again: when the engine starts, it is ready
    again with the configuration it had. *)
Theorem destroy_then_initialize (E : Engine) (st : State) :
  destroy st = (Normal tt, destroyed st)
  /\ destroy (destroyed st) = (Normal tt, destroyed st)
  /\ ready (destroyed st) = false
  /\ config (destroyed st) = config st
  /\ calls (destroyed st) = calls st
  /\ (webR_init E = Normal tt ->
      webR_Shelter E = Normal tt ->
      ready (snd (initialize E (destroyed st))) = true
      /\ shelter (snd (initialize E (destroyed st))) = Some Shelter_new
      /\ config (snd (initialize E (destroyed st))) = config st).
Proof.
  split; [apply destroy_result|].
  split; [rewrite destroy_result; reflexivity|].
  split; [reflexivity|]. split; [reflexivity|]. split; [reflexivity|].
  intros Hi Hs.
  destruct (initialize_cases E (destroyed st)) as [H|[H _]].
  - rewrite H. repeat split.
  - exfalso. revert H.
    unfold initialize, M.try_catch, M.bind, set_webR, set_shelter, set_ready,
      setupEnvironment, M.try_catch, M.bind, shelter_captureR, M.modify, M.ret.
    rewrite Hi, Hs. simpl.
    destruct (captureR E (calls st) setup_code None); discriminate.
Qed.

Lemma destroy_then_initialize_witness :
  ready (snd (initialize demo_engine (destroyed demo_service))) = true
  /\ shelter (snd (initialize demo_engine (destroyed demo_service)))
     = Some Shelter_new
  /\ config (snd (initialize demo_engine (destroyed demo_service)))
     = config demo_service.
Proof.
  apply (proj2 (proj2 (proj2 (proj2 (proj2
    (destroy_then_initialize demo_engine demo_service))))));
    reflexivity.
Defined.
